(** * tcrshuffler: CDR3 decomposition and batch recombination

    A shallow embedding of [tcrshuffler/utils.py] and [tcrshuffler/core.py].

    Python [str] values are lists of characters, Python [int] indices that
    come out of [range] are [nat], the integers handed to slices are [Z]
    (negative bounds count from the end, as in Python).  Dictionaries that
    are only looked up are [gmap]s; the D-gene dictionary, whose iteration
    order decides ties, is an association list in insertion order, and so
    are the dictionaries that [load_reference] fills from the gene table,
    which is an argument.  The process-wide generator of the [random]
    module is explicit state. *)

From Stdlib Require Import ZArith Ascii String List Lia.
From stdpp Require Import base list gmap strings.

Local Open Scope nat_scope.

(** ** Python strings and slices *)

Abbreviation str := (list ascii).

Definition lit (s : string) : str := list_ascii_of_string s.

Module Py.

(** Normalisation of one slice bound against a sequence of length [n]:
    a negative bound counts from the end, then the bound is clipped to
    [0, n]. *)
Definition clamp (n : nat) (i : Z) : nat :=
  if (i <? 0)%Z then Z.to_nat (Z.max 0 (i + Z.of_nat n))
  else Nat.min (Z.to_nat i) n.

(** [s[lo:hi]]; an omitted bound is [None]. *)
Definition slice {A} (s : list A) (lo hi : option Z) : list A :=
  let n := length s in
  let a := from_option (clamp n) 0 lo in
  let b := from_option (clamp n) n hi in
  take (b - a) (drop a s).

(** [s * k] for a list [s] and an integer [k]: empty when [k <= 0]. *)
Definition repeat_list {A} (s : list A) (k : Z) : list A :=
  mjoin (replicate (Z.to_nat k) s).

(** [range(lo, hi)] for bounds that are natural numbers. *)
Definition range (lo hi : nat) : list nat := seq lo (hi - lo).

(** [s.split(sep)] for a one-character separator: never empty. *)
Fixpoint split (sep : ascii) (s : str) : list str :=
  match s with
  | [] => [[]]
  | c :: r =>
      if decide (c = sep) then [] :: split sep r
      else match split sep r with
           | h :: t => (c :: h) :: t
           | [] => [[c]]
           end
  end.

(** [xs[-1]] of a list of strings that is known to be non-empty. *)
Definition last_item (xs : list str) : str := List.last xs [].

(** [str.lower] on the ASCII range. *)
Definition lower_char (c : ascii) : ascii :=
  let n := nat_of_ascii c in
  if decide (65 <= n ∧ n <= 90) then ascii_of_nat (n + 32) else c.

Definition lower (s : str) : str := map lower_char s.

End Py.

(** ** The [random] module

    The generator is an interface: [random.seed(n)] yields a state,
    [_randbelow(n)] draws an integer below [n] and advances the state.
    [random.choice] and [random.shuffle] are written as in CPython's
    [Lib/random.py], on top of [_randbelow]. *)

Class RandomGen := {
  rng_state : Type;
  rng_seed : Z → rng_state;
  randbelow : rng_state → nat → nat * rng_state;
  randbelow_lt : ∀ g n, 0 < n → (randbelow g n).1 < n
}.

Module Random.
Section with_gen.
Context `{RandomGen}.

(** [seq[self._randbelow(len(seq))]].  Callers pass a non-empty [seq]
    (the [IndexError] of the empty case is never reached from
    [choose_cutpoints_around_d]); the drawn index is in range by
    [randbelow_lt], so the default of [nth] is never returned. *)
Definition choice (seq : list nat) (g : rng_state) : nat * rng_state :=
  let '(k, g') := randbelow g (length seq) in (nth k seq 0, g').

(** [x[i], x[j] = x[j], x[i]] *)
Definition swap {A} (x : list A) (i j : nat) : list A :=
  match x !! i, x !! j with
  | Some xi, Some xj => <[j:=xi]> (<[i:=xj]> x)
  | _, _ => x
  end.

(** [for i in reversed(range(1, len(x))): j = randbelow(i + 1); swap] *)
Fixpoint shuffle_from {A} (i : nat) (x : list A) (g : rng_state)
  : list A * rng_state :=
  match i with
  | 0 => (x, g)
  | S i' =>
      let '(j, g') := randbelow g (i + 1) in
      shuffle_from i' (swap x i j) g'
  end.

Definition shuffle {A} (x : list A) (g : rng_state) : list A * rng_state :=
  shuffle_from (length x - 1) x g.

End with_gen.
End Random.

(** A small linear congruential generator, an instance of the interface
    used to run the functions on concrete inputs. *)
Definition lcg_next (s : Z) : Z := ((s * 1103515245 + 12345) mod 2147483648)%Z.

Definition lcg_randbelow (g : Z) (n : nat) : nat * Z :=
  (Z.to_nat (lcg_next g / 65536) mod n, lcg_next g).

#[export, refine] Instance lcg : RandomGen := {|
  rng_state := Z;
  rng_seed := λ s, s;
  randbelow := lcg_randbelow
|}.
Proof.
  intros g n Hn. unfold lcg_randbelow. simpl.
  apply Nat.mod_upper_bound. lia.
Defined.

(** ** [utils.label_cdr3_germline_vj_regions] *)

(** The loop over [enumerate(germline_v)]: [i] is the running index and
    [germ] what is left of the germline string. *)
Fixpoint v_walk (cdr3 : str) (i : nat) (germ : str) (labels : str) : str :=
  match germ with
  | [] => labels
  | aa :: rest =>
      if decide (length cdr3 <= i) then labels
      else
        let labels' :=
          if decide (cdr3 !! i = Some aa) then <[i:="V"%char]> labels
          else labels in
        v_walk cdr3 (S i) rest labels'
  end.

(** The loop over [enumerate(reversed(germline_j))]; the index [-(j+1)]
    of a sequence of length [n] is [n - (j+1)], in range since [j < n]. *)
Fixpoint j_walk (cdr3 : str) (j : nat) (rgerm : str) (labels : str) : str :=
  match rgerm with
  | [] => labels
  | aa :: rest =>
      if decide (length cdr3 <= j) then labels
      else
        let labels' :=
          if decide (cdr3 !! (length cdr3 - (j + 1)) = Some aa) then
            if decide (labels !! (length labels - (j + 1)) = Some "N"%char)
            then <[length labels - (j + 1):="J"%char]> labels
            else labels
          else labels in
        j_walk cdr3 (S j) rest labels'
  end.

Definition v_labels (cdr3 germline_v : str) : str :=
  v_walk cdr3 0 germline_v (replicate (length cdr3) "N"%char).

Definition label_cdr3_germline_vj_regions (cdr3 germline_v germline_j : str)
  : str :=
  j_walk cdr3 0 (reverse germline_j) (v_labels cdr3 germline_v).

(** ** [utils.choose_cutpoints_around_d] *)

Definition before_d : list (ascii * ascii) :=
  [("V", "N"); ("N", "D"); ("V", "D"); ("V", "J")]%char.

Definition after_d : list (ascii * ascii) :=
  [("D", "N"); ("D", "J"); ("N", "J"); ("V", "J")]%char.

(** [(label_string[i], label_string[i + 1]) in transitions] *)
Definition transition_in (transitions : list (ascii * ascii))
    (label_string : str) (i : nat) : bool :=
  match label_string !! i, label_string !! (i + 1) with
  | Some a, Some b => bool_decide ((a, b) ∈ transitions)
  | _, _ => false
  end.

(** [range(1, len(label_string) - 1)] filtered by [before_d]; the
    truncated subtraction agrees with Python, whose range is empty when the
    upper bound is not above the lower one. *)
Definition cuts_before (label_string : str) : list nat :=
  filter (λ i, transition_in before_d label_string i = true)
         (Py.range 1 (length label_string - 1)).

(** [range(len(label_string) - 2)] filtered by [after_d] *)
Definition cuts_after (label_string : str) : list nat :=
  filter (λ i, transition_in after_d label_string i = true)
         (Py.range 0 (length label_string - 2)).

Section cutpoints.
Context `{RandomGen}.

Definition choose_cutpoints_around_d (label_string : str) (g : rng_state)
  : option (nat * nat) * rng_state :=
  match cuts_before label_string, cuts_after label_string with
  | [], _ | _, [] => (None, g)
  | cb, ca =>
      let '(c1, g1) := Random.choice cb g in
      let '(c2, g2) := Random.choice ca g1 in
      (Some (c1, c2), g2)
  end.

End cutpoints.

(** ** [difflib.SequenceMatcher(None, a, b).find_longest_match]

    The matcher of CPython's [Lib/difflib.py] as [best_d_alignment] calls
    it: no junk predicate, [autojunk] left at its default, and the whole of
    both sequences searched ([alo = blo = 0], [ahi = len(a)],
    [bhi = len(b)]). *)

Module difflib.

Record Match := { match_a : nat; match_b : nat; match_size : nat }.

Section matcher.
Context {A : Type} `{EqDecision A}.

(** [__chain_b]: [b2j[elt]] lists, in increasing order, the indices of
    [elt] in [b]. *)
Definition indices (b : list A) (elt : A) : list nat :=
  filter (λ j, b !! j = Some elt) (seq 0 (length b)).

(** With [autojunk], once [len(b) >= 200] an element occurring more than
    [len(b) // 100 + 1] times is popular and is deleted from [b2j]. *)
Definition popular (b : list A) (elt : A) : Prop :=
  200 <= length b ∧ length b / 100 + 1 < length (indices b elt).

#[global] Instance popular_dec b elt : Decision (popular b elt).
Proof. unfold popular. apply _. Defined.

(** [b2j.get(elt, nothing)] *)
Definition b2j_get (b : list A) (elt : A) : list nat :=
  if decide (popular b elt) then [] else indices b elt.

(** [j2lenget(j-1, 0)]: no key is negative, so [j = 0] finds nothing. *)
Definition j2lenget_pred (j2len : gmap nat nat) (j : nat) : nat :=
  match j with
  | 0 => 0
  | S j' => default 0 (j2len !! j')
  end.

(** One pass of the inner loop [for j in b2j.get(a[i], nothing)].  The
    new block starts at [i-k+1] and [j-k+1]; [k] never exceeds [i+1] or
    [j+1], so the subtraction is written the exact way round. *)
Definition scan_j (i : nat) (j2len : gmap nat nat)
    (acc : Match * gmap nat nat) (j : nat) : Match * gmap nat nat :=
  let '(best, newj2len) := acc in
  let k := j2lenget_pred j2len j + 1 in
  let newj2len := <[j:=k]> newj2len in
  if decide (match_size best < k)
  then ({| match_a := i + 1 - k; match_b := j + 1 - k; match_size := k |},
        newj2len)
  else (best, newj2len).

(** The outer loop [for i in range(alo, ahi)], [rest] being [a[i:]]. *)
Fixpoint scan_a (b : list A) (i : nat) (rest : list A) (best : Match)
    (j2len : gmap nat nat) : Match :=
  match rest with
  | [] => best
  | elt :: rest' =>
      let '(best', newj2len) :=
        foldl (scan_j i j2len) (best, ∅) (b2j_get b elt) in
      scan_a b (S i) rest' best' newj2len
  end.

(** [while besti > alo and bestj > blo and a[besti-1] == b[bestj-1]] *)
Fixpoint extend_left (a b : list A) (besti bestj bestsize : nat) : Match :=
  match besti, bestj with
  | S i', S j' =>
      match a !! i', b !! j' with
      | Some x, Some y =>
          if decide (x = y) then extend_left a b i' j' (S bestsize)
          else {| match_a := besti; match_b := bestj; match_size := bestsize |}
      | _, _ => {| match_a := besti; match_b := bestj; match_size := bestsize |}
      end
  | _, _ => {| match_a := besti; match_b := bestj; match_size := bestsize |}
  end.

(** Number of rounds of
    [while besti+bestsize < ahi and bestj+bestsize < bhi and
           a[besti+bestsize] == b[bestj+bestsize]: bestsize += 1]
    when [xs = a[besti+bestsize:]] and [ys = b[bestj+bestsize:]]. *)
Fixpoint extend_right (xs ys : list A) : nat :=
  match xs, ys with
  | x :: xs', y :: ys' =>
      if decide (x = y) then S (extend_right xs' ys') else 0
  | _, _ => 0
  end.

(** The two loops that absorb junk on either side never run: without a
    junk predicate [bjunk] is empty. *)
Definition find_longest_match (a b : list A) : Match :=
  let best := scan_a b 0 a {| match_a := 0; match_b := 0; match_size := 0 |} ∅ in
  let m := extend_left a b (match_a best) (match_b best) (match_size best) in
  {| match_a := match_a m;
     match_b := match_b m;
     match_size :=
       match_size m +
       extend_right (drop (match_a m + match_size m) a)
                    (drop (match_b m + match_size m) b) |}.

End matcher.
End difflib.

(** ** [utils.best_d_alignment] *)

(** The state of the loop over [d_segments.items()]:
    [(best_match, best_score, best_d)]. *)
Definition d_loop_state : Type := option difflib.Match * nat * option str.

Definition d_loop_step (core : str) (st : d_loop_state) (item : str * str)
  : d_loop_state :=
  let '(best_match, best_score, best_d) := st in
  let '(name, d_seq) := item in
  let m := difflib.find_longest_match core d_seq in
  if decide (best_score < difflib.match_size m)
  then (Some m, difflib.match_size m, Some d_seq)
  else (best_match, best_score, best_d).

Definition core_of (cdr3 : str) (min_v min_j : Z) : str :=
  Py.slice cdr3 (Some min_v) (Some (Z.of_nat (length cdr3) - min_j)%Z).

(** [cdr3_source[:start] + "".join('D' for x in cdr3_source[start:end])
     + cdr3_source[end:]] *)
Definition relabel_d (cdr3_source : str) (start stop : Z) : str :=
  Py.slice cdr3_source None (Some start)
  ++ map (λ _, "D"%char) (Py.slice cdr3_source (Some start) (Some stop))
  ++ Py.slice cdr3_source (Some stop) None.

Definition best_d_alignment (cdr3 cdr3_source : str)
    (d_segments : list (str * str)) (min_v min_j : Z)
  : str * str * option str :=
  let core := core_of cdr3 min_v min_j in
  let '(best_match, best_score, best_d) :=
    foldl (d_loop_step core) (None, 0, None) d_segments in
  match best_match with
  | Some m =>
      if decide (0 < best_score) then
        let start := (min_v + Z.of_nat (difflib.match_a m))%Z in
        let stop := (start + Z.of_nat (difflib.match_size m))%Z in
        (cdr3, relabel_d cdr3_source start stop, best_d)
      else (cdr3, cdr3_source, best_d)
  | None => (cdr3, cdr3_source, best_d)
  end.


(** ** [core.shuffle]

    A cell of the input table is any Python object; the engine only asks
    whether it is a [str]. *)
Inductive pyval :=
| PyStr (s : str)
| PyInt (n : Z)
| PyNaN
| PyNone.

Definition receptor : Type := pyval * pyval * pyval.

(** The reason carried by an error tuple: the literal ["invalid_types"],
    [f"missing_germline_{e}"] for the [KeyError] [e] raised on [key], or the
    label string itself when no cutpoints were found. *)
Inductive reason :=
| invalid_types
| missing_germline (key : str)
| no_cutpoints (cdr3_source : str).

Record error_record := {
  err_v : pyval;
  err_cdr3 : pyval;
  err_j : pyval;
  err_reason : reason
}.

Record presuffled_row := {
  row_v : str;
  row_j : str;
  row_germline_v : str;
  row_germline_j : str;
  row_cdr3 : str;
  row_cdr3_source : str;
  row_cut1 : nat;
  row_cut2 : nat;
  row_cut_cdr3 : str;
  row_v_part : str;
  row_d_part : str;
  row_j_part : str
}.

Record shuffled_row := {
  new_v : str;
  new_cdr3 : str;
  new_j : str;
  components : str * str * str
}.

(** What a call yields: one of the three tables, or the exception raised by
    the division that computes [failure_rate]. *)
Inductive outcome :=
| ZeroDivisionError
| ErrorList (errors : list error_record)
| PresuffledAnalysis (rows : list presuffled_row)
| ShuffledBatch (rows : list shuffled_row).

(** The dictionary built by [load_reference]:
    organism, chain, region, gene id, and at the leaf the ['cdrs'] cell of
    the gene's row. *)
Abbreviation reference :=
  (gmap str (gmap str (gmap str (gmap str str)))).

(** [d[organism][chain][region][gene]['cdrs'].split(";")[-1]]; the right
    injection carries the key of the [KeyError]. *)
Definition germline_lookup (d : reference) (organism chain region gene : str)
  : str + str :=
  match d !! organism with
  | None => inr organism
  | Some chains =>
      match chains !! chain with
      | None => inr chain
      | Some regions =>
          match regions !! region with
          | None => inr region
          | Some genes =>
              match genes !! gene with
              | None => inr gene
              | Some cdrs => inl (Py.last_item (Py.split ";" cdrs))
              end
          end
      end
  end.

(** [if v.find("*") == -1: v = f"{v}*01"] *)
Definition ensure_allele (gene : str) : str :=
  if decide ("*"%char ∈ gene) then gene else gene ++ lit "*01".

(** [cdr3[:cut1+1]], [cdr3[cut1+1:cut2+1]], [cdr3[cut2+1:]] *)
Definition v_part_of (cdr3 : str) (cut1 : nat) : str :=
  Py.slice cdr3 None (Some (Z.of_nat cut1 + 1)%Z).

Definition d_part_of (cdr3 : str) (cut1 cut2 : nat) : str :=
  Py.slice cdr3 (Some (Z.of_nat cut1 + 1)%Z) (Some (Z.of_nat cut2 + 1)%Z).

Definition j_part_of (cdr3 : str) (cut2 : nat) : str :=
  Py.slice cdr3 (Some (Z.of_nat cut2 + 1)%Z) None.

Section engine.
Context `{RandomGen}.

(** The five accumulators of the main loop and the generator. *)
Record engine_state := {
  store_v : list (str * str);
  store_d : list (option str * str);
  store_j : list (str * str);
  error_cdr3 : list error_record;
  presuffled_receptors : list presuffled_row;
  gen : rng_state
}.

Definition initial_state (g : rng_state) : engine_state :=
  {| store_v := []; store_d := []; store_j := []; error_cdr3 := [];
     presuffled_receptors := []; gen := g |}.

Definition record_error (st : engine_state) (g : rng_state)
    (v cdr3 j : pyval) (why : reason) : engine_state :=
  {| store_v := store_v st; store_d := store_d st; store_j := store_j st;
     error_cdr3 :=
       error_cdr3 st ++
       [{| err_v := v; err_cdr3 := cdr3; err_j := j; err_reason := why |}];
     presuffled_receptors := presuffled_receptors st;
     gen := g |}.

(** The body of [for v, cdr3, j in sequences * depth].  [D_genes] is the
    dictionary [load_reference] returns for chain ["B"]; other chains never
    consult it.  [best_d_alignment] is called with its default [min_v = 4]
    and [min_j = 3].  The test [cut1 is None] of the source is dead: a
    chosen cutpoint is an element of a list of integers. *)
Definition process_record (d : reference) (D_genes : list (str * str))
    (organism chain : str) (st : engine_state) (r : receptor)
  : engine_state :=
  match r with
  | (PyStr v0, PyStr cdr3, PyStr j0) =>
      let v := ensure_allele v0 in
      let j := ensure_allele j0 in
      match germline_lookup d organism chain (lit "V") v with
      | inr e => record_error st (gen st) (PyStr v) (PyStr cdr3) (PyStr j)
                   (missing_germline e)
      | inl germline_v =>
          match germline_lookup d organism chain (lit "J") j with
          | inr e => record_error st (gen st) (PyStr v) (PyStr cdr3) (PyStr j)
                       (missing_germline e)
          | inl germline_j =>
              let cdr3_source0 :=
                label_cdr3_germline_vj_regions cdr3 germline_v germline_j in
              let '(cdr3, cdr3_source, d_gene) :=
                if decide (chain = lit "B")
                then best_d_alignment cdr3 cdr3_source0 D_genes 4 3
                else (cdr3, cdr3_source0, None) in
              match choose_cutpoints_around_d cdr3_source (gen st) with
              | (None, g) =>
                  record_error st g (PyStr v) (PyStr cdr3) (PyStr j)
                    (no_cutpoints cdr3_source)
              | (Some (cut1, cut2), g) =>
                  let v_part := v_part_of cdr3 cut1 in
                  let d_part := d_part_of cdr3 cut1 cut2 in
                  let j_part := j_part_of cdr3 cut2 in
                  let cut_cdr3 :=
                    v_part_of cdr3 cut1 ++ lit "--"
                    ++ Py.lower (d_part_of cdr3 cut1 cut2) ++ lit "--"
                    ++ j_part_of cdr3 cut2 in
                  {| store_v := store_v st ++ [(v, v_part)];
                     store_d := store_d st ++ [(d_gene, d_part)];
                     store_j := store_j st ++ [(j, j_part)];
                     error_cdr3 := error_cdr3 st;
                     presuffled_receptors :=
                       presuffled_receptors st ++
                       [{| row_v := v; row_j := j;
                           row_germline_v := germline_v;
                           row_germline_j := germline_j;
                           row_cdr3 := cdr3;
                           row_cdr3_source := cdr3_source;
                           row_cut1 := cut1; row_cut2 := cut2;
                           row_cut_cdr3 := cut_cdr3;
                           row_v_part := v_part; row_d_part := d_part;
                           row_j_part := j_part |}];
                     gen := g |}
              end
          end
      end
  | (v, cdr3, j) => record_error st (gen st) v cdr3 j invalid_types
  end.

(** The main loop over [sequences * depth]. *)
Definition run_loop (d : reference) (D_genes : list (str * str))
    (organism chain : str) (g : rng_state) (tcrs : list receptor)
    (depth : Z) : engine_state :=
  foldl (process_record d D_genes organism chain) (initial_state g)
        (Py.repeat_list tcrs depth).

(** [(V, n + dseg + c, J, (n, dseg, c))] over
    [zip(store_v, store_d, store_j)] *)
Fixpoint new_junctions (sv : list (str * str)) (sd : list (option str * str))
    (sj : list (str * str)) : list shuffled_row :=
  match sv, sd, sj with
  | (V, n) :: sv', (D, dseg) :: sd', (J, c) :: sj' =>
      {| new_v := V; new_cdr3 := n ++ dseg ++ c; new_j := J;
         components := (n, dseg, c) |} :: new_junctions sv' sd' sj'
  | _, _, _ => []
  end.

(** [if random_seed is not None: random.seed(random_seed)] *)
Definition start_generator (random_seed : option Z) (ambient : rng_state)
  : rng_state :=
  match random_seed with
  | Some n => rng_seed n
  | None => ambient
  end.

(** [shuffle(tcrs, chain, organism, ..., depth, random_seed,
    return_presuffled, return_errors)].  [tcrs] is the table already
    projected on its three columns, [(d, D_genes)] the pair returned by
    [load_reference], [ambient] the state of the process-wide generator at
    the call.  Printing [failure_rate] has no bearing on the result; the
    division that computes it raises when [len(tcrs) * depth] is zero. *)
Definition shuffle (d : reference) (D_genes : list (str * str))
    (ambient : rng_state) (tcrs : list receptor) (chain organism : str)
    (depth : Z) (random_seed : option Z)
    (return_presuffled return_errors : bool) : outcome * rng_state :=
  let g0 := start_generator random_seed ambient in
  let st := run_loop d D_genes organism chain g0 tcrs depth in
  if decide (Z.of_nat (length tcrs) * depth = 0)%Z
  then (ZeroDivisionError, gen st)
  else if return_errors then (ErrorList (error_cdr3 st), gen st)
  else if return_presuffled
       then (PresuffledAnalysis (presuffled_receptors st), gen st)
  else
    let '(sv, g1) := Random.shuffle (store_v st) (gen st) in
    let '(sd, g2) := Random.shuffle (store_d st) g1 in
    let '(sj, g3) := Random.shuffle (store_j st) g2 in
    (ShuffledBatch (new_junctions sv sd sj), g3).

End engine.

(** ** [utils.choose_valid_cutpoint] *)

Definition valid_transitions : list (ascii * ascii) :=
  [("V", "N"); ("N", "D"); ("D", "N"); ("D", "J")]%char.

(** [range(len(label_string) - 1)] filtered by [valid_transitions] *)
Definition valid_cutpoints (label_string : str) : list nat :=
  filter (λ i, transition_in valid_transitions label_string i = true)
         (Py.range 0 (length label_string - 1)).

Section valid_cutpoint.
Context `{RandomGen}.

(** [random.choice(cutpoints) if cutpoints else None] *)
Definition choose_valid_cutpoint (label_string : str) (g : rng_state)
  : option nat * rng_state :=
  match valid_cutpoints label_string with
  | [] => (None, g)
  | cutpoints =>
      let '(c, g') := Random.choice cutpoints g in (Some c, g')
  end.

End valid_cutpoint.

(** ** [utils.center_pad]

    [total_length] is any integer and [fill_char] any string (the default
    is ["."]); [fill_char * middle_length] repeats it. *)
Definition center_pad (germline_v germline_j : str) (total_length : Z)
    (fill_char : str) : str :=
  let left := germline_v in
  let right := germline_j in
  if decide (total_length < Z.of_nat (length left) + Z.of_nat (length right))%Z
  then left ++ right
  else
    let middle_length :=
      (total_length - Z.of_nat (length left) - Z.of_nat (length right))%Z in
    let middle :=
      if decide (0 < middle_length)%Z
      then Py.repeat_list fill_char middle_length
      else [] in
    left ++ middle ++ right.

(** ** [core.load_reference]

    Python's [dict] keeps its keys in insertion order: an association list
    with distinct keys.  Assigning to a key that is present replaces the
    value where it stands; a new key goes to the end. *)
Module PyDict.
Section dict.
Context {K V : Type} `{EqDecision K}.

(** [d.get(k)] *)
Fixpoint get (k : K) (d : list (K * V)) : option V :=
  match d with
  | [] => None
  | (k', v) :: d' => if decide (k' = k) then Some v else get k d'
  end.

(** [d[k] = v] *)
Fixpoint set (k : K) (v : V) (d : list (K * V)) : list (K * V) :=
  match d with
  | [] => [(k, v)]
  | (k', v') :: d' =>
      if decide (k' = k) then (k', v) :: d' else (k', v') :: set k v d'
  end.

(** [d.values()] *)
Definition values (d : list (K * V)) : list V := d.*2.

End dict.
End PyDict.

(** A row of the gene table, by the columns the package reads (it keeps the
    whole row as a dictionary); the cells of these columns are strings. *)
Record gene_row := {
  gene_organism : str;
  gene_chain : str;
  gene_region : str;
  gene_id : str;
  gene_cdrs : str;
  gene_aligned_protseq : str
}.

(** [d]: organism, chain, region, gene id, row. *)
Definition gene_table : Type :=
  list (str * list (str * list (str * list (str * gene_row)))).

(** [d.setdefault(org, {}).setdefault(ch, {}).setdefault(region, {})[gene_id]
     = r.to_dict()]: the inner dictionaries are created when absent and
    updated where they stand. *)
Definition add_row (d : gene_table) (r : gene_row) : gene_table :=
  let chains := default [] (PyDict.get (gene_organism r) d) in
  let regions := default [] (PyDict.get (gene_chain r) chains) in
  let genes := default [] (PyDict.get (gene_region r) regions) in
  PyDict.set (gene_organism r)
    (PyDict.set (gene_chain r)
       (PyDict.set (gene_region r)
          (PyDict.set (gene_id r) r genes) regions) chains) d.

(** The loop over [all_genes.iterrows()]. *)
Definition build_gene_table (all_genes : list gene_row) : gene_table :=
  foldl add_row [] all_genes.

(** [{x['id']: x['aligned_protseq'] for x in genes.values()}] *)
Definition d_genes_of (genes : list (str * gene_row)) : list (str * str) :=
  foldl (λ acc x, PyDict.set (gene_id x) (gene_aligned_protseq x) acc) []
        (PyDict.values genes).

(** [load_reference(organism, chain)] on the table [all_genes] that
    [pd.read_csv] returned.  The left injection carries the key of the
    [KeyError] that [d[organism][chain]['D']] raises; [D_genes] is [None]
    unless [chain == "B"]. *)
Definition load_reference (all_genes : list gene_row) (organism chain : str)
  : str + (gene_table * option (list (str * str))) :=
  let d := build_gene_table all_genes in
  if decide (chain = lit "B") then
    match PyDict.get organism d with
    | None => inl organism
    | Some chains =>
        match PyDict.get chain chains with
        | None => inl chain
        | Some regions =>
            match PyDict.get (lit "D") regions with
            | None => inl (lit "D")
            | Some genes => inr (d, Some (d_genes_of genes))
            end
        end
    end
  else inr (d, None).

(** The germline reference [shuffle] reads in [d]: the ['cdrs'] cell of each
    row, under the same four keys. *)
Definition reference_of (d : gene_table) : reference :=
  list_to_map
    (prod_map id
       (λ chains,
          list_to_map
            (prod_map id
               (λ regions,
                  list_to_map
                    (prod_map id
                       (λ genes, list_to_map (prod_map id gene_cdrs <$> genes))
                     <$> regions))
             <$> chains))
     <$> d).


(** ** Notions used in the statements *)

(** The three fragments of [cdr3] at [(cut1, cut2)] concatenate to [cdr3]. *)
Definition fragments_reconstruct (cdr3 : str) (cut1 cut2 : nat) : Prop :=
  v_part_of cdr3 cut1 ++ d_part_of cdr3 cut1 cut2 ++ j_part_of cdr3 cut2 = cdr3.

(** Length of the match the matcher reports between [core] and [d_seq]. *)
Definition lcs_size (core d_seq : str) : nat :=
  difflib.match_size (difflib.find_longest_match core d_seq).

Section blocks.
Context {A : Type} `{EqDecision A}.
Implicit Types a b : list A.

(** [a[i:i+k]] and [b[j:j+k]] are the same [k] elements. *)
Definition common_block a b (i j k : nat) : Prop :=
  ∀ t, t < k → ∃ x, a !! (i + t) = Some x ∧ b !! (j + t) = Some x.

(** During round [i] of the outer loop, [j2len[j]] is the length of a block
    that ends with [a[i-1]] and [b[j]]. *)
Definition j2len_ok a b (i : nat) (j2len : gmap nat nat) : Prop :=
  ∀ j k, j2len !! j = Some k →
    1 <= k ∧ k <= i ∧ k <= j + 1 ∧ common_block a b (i - k) (j + 1 - k) k.

Definition best_ok a b (best : difflib.Match) : Prop :=
  common_block a b (difflib.match_a best) (difflib.match_b best)
               (difflib.match_size best).

(** Length of the longest block that ends with [a[i]] and [b[j]]. *)
Fixpoint csuf a b (i j : nat) : nat :=
  match a !! i, b !! j with
  | Some x, Some y =>
      if decide (x = y)
      then S (match i, j with
              | S i', S j' => csuf a b i' j'
              | _, _ => 0
              end)
      else 0
  | _, _ => 0
  end.

Definition csuf_before a b (i j : nat) : nat :=
  match i with
  | 0 => 0
  | S i' => csuf a b i' j
  end.

Definition j2len_exact a b (i : nat) (j2len : gmap nat nat) : Prop :=
  ∀ j, default 0 (j2len !! j) = csuf_before a b i j.

End blocks.

Definition all_str (r : receptor) : Prop :=
  ∃ v cdr3 j, r = (PyStr v, PyStr cdr3, PyStr j).

(** How an error tuple relates to the input record it was emitted for. *)
Definition error_origin (r : receptor) (e : error_record) : Prop :=
  (err_reason e = invalid_types
   ∧ r = (err_v e, err_cdr3 e, err_j e) ∧ ¬ all_str r)
  ∨ (err_reason e ≠ invalid_types
     ∧ ∃ v cdr3 j,
         r = (PyStr v, PyStr cdr3, PyStr j)
         ∧ err_v e = PyStr (ensure_allele v)
         ∧ err_cdr3 e = PyStr cdr3
         ∧ err_j e = PyStr (ensure_allele j)).

(** A diagnostic row as the loop writes it: label string as long as the
    CDR3, cutpoints taken from the two candidate lists of the label string,
    fragments sliced out of the CDR3 at these cutpoints. *)
Definition row_ok (row : presuffled_row) : Prop :=
  length (row_cdr3_source row) = length (row_cdr3 row)
  ∧ row_cut1 row ∈ cuts_before (row_cdr3_source row)
  ∧ row_cut2 row ∈ cuts_after (row_cdr3_source row)
  ∧ row_v_part row = v_part_of (row_cdr3 row) (row_cut1 row)
  ∧ row_d_part row = d_part_of (row_cdr3 row) (row_cut1 row) (row_cut2 row)
  ∧ row_j_part row = j_part_of (row_cdr3 row) (row_cut2 row).

Section engine_notions.
Context `{RandomGen}.

(** The accumulators when the main loop of a call is over. *)
Definition loop_state (d : reference) (D_genes : list (str * str))
    (organism chain : str) (random_seed : option Z) (ambient : rng_state)
    (tcrs : list receptor) (depth : Z) : engine_state :=
  run_loop d D_genes organism chain (start_generator random_seed ambient)
           tcrs depth.

Definition step_is_error (st st' : engine_state) (r : receptor) : Prop :=
  ∃ e, error_origin r e
       ∧ error_cdr3 st' = error_cdr3 st ++ [e]
       ∧ store_v st' = store_v st ∧ store_d st' = store_d st
       ∧ store_j st' = store_j st
       ∧ presuffled_receptors st' = presuffled_receptors st.

Definition step_is_success (st st' : engine_state) : Prop :=
  ∃ row d_gene,
    row_ok row
    ∧ error_cdr3 st' = error_cdr3 st
    ∧ store_v st' = store_v st ++ [(row_v row, row_v_part row)]
    ∧ store_d st' = store_d st ++ [(d_gene, row_d_part row)]
    ∧ store_j st' = store_j st ++ [(row_j row, row_j_part row)]
    ∧ presuffled_receptors st' = presuffled_receptors st ++ [row].

(** Pools, diagnostics and errors after [n] records. *)
Definition counts_ok (st : engine_state) (n : nat) : Prop :=
  length (store_d st) = length (store_v st)
  ∧ length (store_j st) = length (store_v st)
  ∧ length (presuffled_receptors st) = length (store_v st)
  ∧ length (error_cdr3 st) + length (store_v st) = n.

End engine_notions.

(** A small reference and batch on which the engine is run below. *)
Definition sample_reference : reference :=
  {[ lit "human" :=
       {[ lit "B" :=
            {[ lit "V" := {[ lit "TRBV19*01" := lit "a;b;CASSI";
                             lit "TRBV5-1*01" := lit "x;CASSL" ]};
               lit "J" := {[ lit "TRBJ1-1*01" := lit "NTEAFF";
                             lit "TRBJ2-7*01" := lit "SYEQYF" ]} ]} ]} ]}.

Definition sample_D_genes : list (str * str) :=
  [(lit "TRBD1*01", lit "GTGG"); (lit "TRBD2*01", lit "GLAGG")].

Definition sample_tcrs : list receptor :=
  [ (PyStr (lit "TRBV19"), PyStr (lit "CASSSHAGGNTEAFF"), PyStr (lit "TRBJ1-1*01"));
    (PyStr (lit "TRBV5-1*01"), PyStr (lit "CASSLQGAYEQYF"), PyStr (lit "TRBJ2-7"));
    (PyNone, PyStr (lit "CASS"), PyStr (lit "TRBJ2-7"));
    (PyStr (lit "TRBV5-9"), PyStr (lit "CASS"), PyStr (lit "TRBJ2-7")) ].

(** What the loop body settles about a record before it draws cutpoints:
    either the error tuple the record ends in, or the normalised gene ids,
    germline strings, CDR3, label string and D gene of a record whose two
    candidate lists are both non-empty. *)
Record prepared := {
  p_v : str;
  p_j : str;
  p_germline_v : str;
  p_germline_j : str;
  p_cdr3 : str;
  p_cdr3_source : str;
  p_d_gene : option str
}.

Definition prepare (d : reference) (D_genes : list (str * str))
    (organism chain : str) (r : receptor) : error_record + prepared :=
  match r with
  | (PyStr v0, PyStr cdr3, PyStr j0) =>
      let v := ensure_allele v0 in
      let j := ensure_allele j0 in
      match germline_lookup d organism chain (lit "V") v with
      | inr e => inl {| err_v := PyStr v; err_cdr3 := PyStr cdr3;
                        err_j := PyStr j; err_reason := missing_germline e |}
      | inl germline_v =>
          match germline_lookup d organism chain (lit "J") j with
          | inr e => inl {| err_v := PyStr v; err_cdr3 := PyStr cdr3;
                            err_j := PyStr j;
                            err_reason := missing_germline e |}
          | inl germline_j =>
              let cdr3_source0 :=
                label_cdr3_germline_vj_regions cdr3 germline_v germline_j in
              let '(cdr3, cdr3_source, d_gene) :=
                if decide (chain = lit "B")
                then best_d_alignment cdr3 cdr3_source0 D_genes 4 3
                else (cdr3, cdr3_source0, None) in
              match cuts_before cdr3_source, cuts_after cdr3_source with
              | [], _ | _, [] =>
                  inl {| err_v := PyStr v; err_cdr3 := PyStr cdr3;
                         err_j := PyStr j;
                         err_reason := no_cutpoints cdr3_source |}
              | _, _ =>
                  inr {| p_v := v; p_j := j; p_germline_v := germline_v;
                         p_germline_j := germline_j; p_cdr3 := cdr3;
                         p_cdr3_source := cdr3_source; p_d_gene := d_gene |}
              end
          end
      end
  | (v, cdr3, j) =>
      inl {| err_v := v; err_cdr3 := cdr3; err_j := j;
             err_reason := invalid_types |}
  end.

(** The error tuple of a record that fails. *)
Definition error_of (d : reference) (D_genes : list (str * str))
    (organism chain : str) (r : receptor) : option error_record :=
  match prepare d D_genes organism chain r with
  | inl e => Some e
  | inr _ => None
  end.

(** The diagnostic row of a prepared record cut at [(cut1, cut2)]. *)
Definition row_of (p : prepared) (cut1 cut2 : nat) : presuffled_row :=
  {| row_v := p_v p; row_j := p_j p;
     row_germline_v := p_germline_v p; row_germline_j := p_germline_j p;
     row_cdr3 := p_cdr3 p; row_cdr3_source := p_cdr3_source p;
     row_cut1 := cut1; row_cut2 := cut2;
     row_cut_cdr3 :=
       v_part_of (p_cdr3 p) cut1 ++ lit "--"
       ++ Py.lower (d_part_of (p_cdr3 p) cut1 cut2) ++ lit "--"
       ++ j_part_of (p_cdr3 p) cut2;
     row_v_part := v_part_of (p_cdr3 p) cut1;
     row_d_part := d_part_of (p_cdr3 p) cut1 cut2;
     row_j_part := j_part_of (p_cdr3 p) cut2 |}.

Section pool_notions.
Context `{RandomGen}.

(** Two states with the same pools, diagnostic rows and generator. *)
Definition same_pools (st st' : engine_state) : Prop :=
  store_v st = store_v st' ∧ store_d st = store_d st'
  ∧ store_j st = store_j st'
  ∧ presuffled_receptors st = presuffled_receptors st'
  ∧ gen st = gen st'.

(** The pools are columns of the diagnostic rows. *)
Definition pools_of_rows (st : engine_state) : Prop :=
  store_v st = (λ row, (row_v row, row_v_part row)) <$> presuffled_receptors st
  ∧ store_j st = (λ row, (row_j row, row_j_part row)) <$> presuffled_receptors st
  ∧ (store_d st).*2 = row_d_part <$> presuffled_receptors st.

End pool_notions.

(** [d[organism][chain][region]] and [d[organism][chain][region][gene]];
    [None] stands for the [KeyError]. *)
Definition table_genes (d : gene_table) (organism chain region : str)
  : option (list (str * gene_row)) :=
  chains ← PyDict.get organism d;
  regions ← PyDict.get chain chains;
  PyDict.get region regions.

Definition table_lookup (d : gene_table) (organism chain region gene : str)
  : option gene_row :=
  genes ← table_genes d organism chain region;
  PyDict.get gene genes.

(** The rows of the table filed under an organism, a chain and a region, in
    table order. *)
Definition rows_under (all_genes : list gene_row) (organism chain region : str)
  : list gene_row :=
  filter (λ r, gene_organism r = organism ∧ gene_chain r = chain
               ∧ gene_region r = region) all_genes.

(** The distinct elements of a list in the order of their first occurrence:
    the key order of a dictionary filled by assignments in list order. *)
Fixpoint first_occurrences {A} `{EqDecision A} (l : list A) : list A :=
  match l with
  | [] => []
  | x :: l => x :: filter (λ y, y ≠ x) (first_occurrences l)
  end.

(** A small gene table: two D genes of the human beta chain, the first one
    listed twice, and one V gene. *)
Definition sample_rows : list gene_row :=
  [ {| gene_organism := lit "human"; gene_chain := lit "B";
       gene_region := lit "D"; gene_id := lit "TRBD1*01";
       gene_cdrs := lit ""; gene_aligned_protseq := lit "GTGG" |};
    {| gene_organism := lit "human"; gene_chain := lit "B";
       gene_region := lit "V"; gene_id := lit "TRBV1*01";
       gene_cdrs := lit "SGH.......AT;FQN....EAQ;CASSQ";
       gene_aligned_protseq := lit "DTGITQ" |};
    {| gene_organism := lit "human"; gene_chain := lit "B";
       gene_region := lit "D"; gene_id := lit "TRBD2*01";
       gene_cdrs := lit ""; gene_aligned_protseq := lit "GLAGG" |};
    {| gene_organism := lit "human"; gene_chain := lit "B";
       gene_region := lit "D"; gene_id := lit "TRBD1*01";
       gene_cdrs := lit ""; gene_aligned_protseq := lit "GQGG" |} ].


(** * Properties *)

(** Membership in an explicit list of distinct constants. *)
Ltac absurd_member H :=
  repeat (apply elem_of_cons in H as [H|H]; [discriminate H|]);
  by apply elem_of_nil in H.

(** ** Slices with non-negative bounds *)

Section slices.
Context {A : Type}.
Implicit Types s : list A.

Lemma clamp_of_nat n (k : nat) : Py.clamp n (Z.of_nat k) = Nat.min k n.
Proof.
  unfold Py.clamp. destruct (Z.ltb_spec (Z.of_nat k) 0); [lia|].
  by rewrite Nat2Z.id.
Qed.

Lemma slice_upto s (k : nat) : Py.slice s None (Some (Z.of_nat k)) = take k s.
Proof.
  unfold Py.slice. simpl. rewrite clamp_of_nat, Nat.sub_0_r.
  destruct (decide (k <= length s)).
  - by rewrite Nat.min_l.
  - rewrite Nat.min_r by lia. rewrite (take_ge s k) by lia. by rewrite take_ge.
Qed.

Lemma slice_from s (k : nat) : Py.slice s (Some (Z.of_nat k)) None = drop k s.
Proof.
  unfold Py.slice. simpl. rewrite clamp_of_nat.
  destruct (decide (k <= length s)).
  - rewrite Nat.min_l by lia. apply take_ge. rewrite length_drop. lia.
  - rewrite Nat.min_r by lia. rewrite !drop_ge by lia. by rewrite take_nil.
Qed.

Lemma slice_between s (a b : nat) :
  Py.slice s (Some (Z.of_nat a)) (Some (Z.of_nat b)) = take (b - a) (drop a s).
Proof.
  unfold Py.slice. simpl. rewrite !clamp_of_nat.
  destruct (decide (a <= length s)).
  - rewrite (Nat.min_l a) by lia.
    destruct (decide (b <= length s)).
    + by rewrite Nat.min_l by lia.
    + rewrite Nat.min_r by lia.
      rewrite (take_ge _ (b - a)) by (rewrite length_drop; lia).
      apply take_ge. rewrite length_drop. lia.
  - rewrite !drop_ge by lia. by rewrite !take_nil.
Qed.

Lemma slice_length_le s lo hi : length (Py.slice s lo hi) <= length s.
Proof.
  unfold Py.slice. rewrite length_take, length_drop. lia.
Qed.

End slices.

Lemma succ_of_nat (k : nat) : (Z.of_nat k + 1)%Z = Z.of_nat (S k).
Proof. lia. Qed.

Lemma fragments_take_drop (cdr3 : str) cut1 cut2 :
  v_part_of cdr3 cut1 ++ d_part_of cdr3 cut1 cut2 ++ j_part_of cdr3 cut2
  = take (S cut1) cdr3 ++ take (cut2 - cut1) (drop (S cut1) cdr3) ++ drop (S cut2) cdr3.
Proof.
  unfold v_part_of, d_part_of, j_part_of.
  rewrite !succ_of_nat, slice_upto, slice_between, slice_from.
  done.
Qed.

(** ** Fragment extraction *)


Lemma fragments_ordered (cdr3 : str) cut1 cut2 :
  cut1 <= cut2 → fragments_reconstruct cdr3 cut1 cut2.
Proof.
  intros Hle. unfold fragments_reconstruct. rewrite fragments_take_drop.
  rewrite <- (take_drop (S cut1) cdr3) at 4.
  f_equal.
  replace (drop (S cut2) cdr3)
    with (drop (cut2 - cut1) (drop (S cut1) cdr3)).
  - apply take_drop.
  - rewrite drop_drop. f_equal. lia.
Qed.

Lemma fragments_inverted_length (cdr3 : str) cut1 cut2 :
  cut2 < cut1 → cut1 < length cdr3 →
  length (v_part_of cdr3 cut1 ++ d_part_of cdr3 cut1 cut2 ++ j_part_of cdr3 cut2)
  = length cdr3 + (cut1 - cut2).
Proof.
  intros Hlt Hlen. rewrite fragments_take_drop.
  rewrite !length_app, !length_take, !length_drop. lia.
Qed.

Lemma fragments_iff (cdr3 : str) cut1 cut2 :
  cut1 < length cdr3 →
  fragments_reconstruct cdr3 cut1 cut2 ↔ cut1 <= cut2.
Proof.
  intros Hlt. split; [|apply fragments_ordered].
  intros Hrec. destruct (decide (cut1 <= cut2)) as [|Hinv]; [done|exfalso].
  pose proof (fragments_inverted_length cdr3 cut1 cut2) as Hl.
  unfold fragments_reconstruct in Hrec. rewrite Hrec in Hl. lia.
Qed.

Section cutpoint_facts.
Context `{RandomGen}.

Lemma choice_elem (seq : list nat) g :
  seq ≠ [] → (Random.choice seq g).1 ∈ seq.
Proof.
  intros Hne. unfold Random.choice.
  pose proof (randbelow_lt g (length seq)) as Hlt.
  destruct (randbelow g (length seq)) as [k g'] eqn:E. simpl in *.
  assert (k < length seq) as Hk.
  { apply Hlt. destruct seq; [done|simpl; lia]. }
  apply list_elem_of_In, nth_In. done.
Qed.

Lemma choose_cutpoints_none label_string g :
  (choose_cutpoints_around_d label_string g).1 = None
  ↔ cuts_before label_string = [] ∨ cuts_after label_string = [].
Proof.
  unfold choose_cutpoints_around_d.
  destruct (cuts_before label_string) as [|b bs], (cuts_after label_string) as [|a az];
    simpl; try (split; [intros _; auto | done]).
  destruct (Random.choice (b :: bs) g) as [c1 g1].
  destruct (Random.choice (a :: az) g1) as [c2 g2]. simpl.
  split; [done|]. intros [?|?]; done.
Qed.

Lemma choose_cutpoints_some label_string g cut1 cut2 :
  (choose_cutpoints_around_d label_string g).1 = Some (cut1, cut2) →
  cut1 ∈ cuts_before label_string ∧ cut2 ∈ cuts_after label_string.
Proof.
  unfold choose_cutpoints_around_d.
  destruct (cuts_before label_string) as [|b bs] eqn:Eb;
    destruct (cuts_after label_string) as [|a az] eqn:Ea; simpl; try done.
  pose proof (choice_elem (b :: bs) g) as H1.
  destruct (Random.choice (b :: bs) g) as [c1 g1].
  pose proof (choice_elem (a :: az) g1) as H2.
  destruct (Random.choice (a :: az) g1) as [c2 g2]. simpl in *.
  intros [= <- <-]. split; [apply H1 | apply H2]; done.
Qed.

End cutpoint_facts.

Lemma range_elem lo hi i : i ∈ Py.range lo hi ↔ lo <= i ∧ i < hi.
Proof. unfold Py.range. rewrite elem_of_seq. lia. Qed.

Lemma transition_in_spec ts (label_string : str) i :
  transition_in ts label_string i = true
  ↔ ∃ a b, label_string !! i = Some a ∧ label_string !! (i + 1) = Some b
           ∧ (a, b) ∈ ts.
Proof.
  unfold transition_in.
  destruct (label_string !! i) as [a|], (label_string !! (i + 1)) as [b|];
    try (split; [done | intros (? & ? & ? & ? & ?); done]).
  rewrite bool_decide_eq_true. split.
  - intros Hin. by exists a, b.
  - intros (a' & b' & [= <-] & [= <-] & Hin). done.
Qed.

Lemma cuts_before_spec (label_string : str) i :
  i ∈ cuts_before label_string
  ↔ (1 <= i ∧ i + 2 <= length label_string)
    ∧ ∃ a b, label_string !! i = Some a ∧ label_string !! (i + 1) = Some b
             ∧ (a, b) ∈ before_d.
Proof.
  unfold cuts_before. rewrite list_elem_of_filter, range_elem, transition_in_spec.
  split.
  - intros [Ht Hr]. split; [lia | done].
  - intros [Hr Ht]. split; [done | lia].
Qed.

Lemma cuts_after_spec (label_string : str) i :
  i ∈ cuts_after label_string
  ↔ i + 3 <= length label_string
    ∧ ∃ a b, label_string !! i = Some a ∧ label_string !! (i + 1) = Some b
             ∧ (a, b) ∈ after_d.
Proof.
  unfold cuts_after. rewrite list_elem_of_filter, range_elem, transition_in_spec.
  split.
  - intros [Ht Hr]. split; [lia | done].
  - intros [Hr Ht]. split; [done | lia].
Qed.

(** ** Region labelling *)

Lemma v_walk_length cdr3 i germ labels :
  length (v_walk cdr3 i germ labels) = length labels.
Proof.
  revert i labels. induction germ as [|aa rest IH]; intros i labels; simpl; [done|].
  repeat case_decide; rewrite ?IH, ?length_insert; done.
Qed.

Lemma j_walk_length cdr3 j rgerm labels :
  length (j_walk cdr3 j rgerm labels) = length labels.
Proof.
  revert j labels. induction rgerm as [|aa rest IH]; intros j labels; simpl; [done|].
  repeat case_decide; rewrite ?IH, ?length_insert; done.
Qed.

Lemma v_labels_length cdr3 germline_v : length (v_labels cdr3 germline_v) = length cdr3.
Proof. unfold v_labels. by rewrite v_walk_length, length_replicate. Qed.

Lemma label_length cdr3 germline_v germline_j :
  length (label_cdr3_germline_vj_regions cdr3 germline_v germline_j) = length cdr3.
Proof.
  unfold label_cdr3_germline_vj_regions. by rewrite j_walk_length, v_labels_length.
Qed.

(** One step of the J walk changes a position only from N to J. *)
Lemma j_walk_pointwise cdr3 j rgerm labels p :
  j_walk cdr3 j rgerm labels !! p = labels !! p
  ∨ (labels !! p = Some "N"%char
     ∧ j_walk cdr3 j rgerm labels !! p = Some "J"%char).
Proof.
  revert j labels. induction rgerm as [|aa rest IH]; intros j labels; simpl; [by left|].
  case_decide; [by left|].
  case_decide; [|apply IH].
  case_decide as HN; [|apply IH].
  set (q := length labels - (j + 1)) in *.
  destruct (IH (S j) (<[q:="J"%char]> labels)) as [Heq|[Hn Hj]].
  - rewrite Heq. destruct (decide (p = q)) as [->|Hne].
    + right. split; [done|]. apply list_lookup_insert_eq.
      by apply lookup_lt_Some in HN.
    + left. by apply list_lookup_insert_ne.
  - destruct (decide (p = q)) as [->|Hne].
    + right. done.
    + right. split; [|done]. by rewrite list_lookup_insert_ne in Hn.
Qed.

Lemma j_walk_keeps cdr3 j rgerm labels p c :
  labels !! p = Some c → c ≠ "N"%char →
  j_walk cdr3 j rgerm labels !! p = Some c.
Proof.
  intros Hp Hc. destruct (j_walk_pointwise cdr3 j rgerm labels p) as [->|[Hn _]]; [done|].
  congruence.
Qed.

Lemma v_walk_pointwise cdr3 i germ labels p :
  v_walk cdr3 i germ labels !! p = labels !! p
  ∨ (p < length labels ∧ v_walk cdr3 i germ labels !! p = Some "V"%char).
Proof.
  revert i labels. induction germ as [|aa rest IH]; intros i labels; simpl; [by left|].
  case_decide; [by left|].
  case_decide; [|apply IH].
  destruct (IH (S i) (<[i:="V"%char]> labels)) as [Heq|[Hlt Hv]].
  - rewrite Heq. destruct (decide (p = i)) as [->|Hne].
    + destruct (decide (i < length labels)).
      * right. split; [done|]. by apply list_lookup_insert_eq.
      * left. rewrite list_insert_ge by lia. done.
    + left. by apply list_lookup_insert_ne.
  - right. rewrite length_insert in Hlt. done.
Qed.

(** Every label is one of V, N, J after labelling. *)
Lemma label_alphabet cdr3 germline_v germline_j p c :
  label_cdr3_germline_vj_regions cdr3 germline_v germline_j !! p = Some c →
  c = "V"%char ∨ c = "N"%char ∨ c = "J"%char.
Proof.
  unfold label_cdr3_germline_vj_regions. intros Hp.
  destruct (j_walk_pointwise cdr3 0 (reverse germline_j) (v_labels cdr3 germline_v) p)
    as [Heq|[_ Hj]]; [|rewrite Hj in Hp; naive_solver].
  rewrite Heq in Hp. unfold v_labels in Hp.
  destruct (v_walk_pointwise cdr3 0 germline_v (replicate (length cdr3) "N"%char) p)
    as [Heq'|[_ Hv]]; [|rewrite Hv in Hp; naive_solver].
  rewrite Heq' in Hp. apply lookup_replicate in Hp as [-> _]. auto.
Qed.

(** ** D-segment matching *)


Lemma relabel_d_nat (cdr3_source : str) (start stop : nat) :
  relabel_d cdr3_source (Z.of_nat start) (Z.of_nat stop)
  = take start cdr3_source
    ++ map (λ _, "D"%char) (take (stop - start) (drop start cdr3_source))
    ++ drop stop cdr3_source.
Proof. unfold relabel_d. by rewrite slice_upto, slice_between, slice_from. Qed.

Lemma relabel_d_length (cdr3_source : str) (start stop : nat) :
  start <= stop →
  length (relabel_d cdr3_source (Z.of_nat start) (Z.of_nat stop))
  = length cdr3_source.
Proof.
  intros Hle. rewrite relabel_d_nat.
  rewrite !length_app, length_map, !length_take, !length_drop. lia.
Qed.

(** Inside the span every position carries D, whatever it carried before;
    outside the span nothing changes. *)
Lemma relabel_d_lookup (cdr3_source : str) (start stop p : nat) :
  start <= stop →
  relabel_d cdr3_source (Z.of_nat start) (Z.of_nat stop) !! p
  = if decide (start <= p ∧ p < stop)
    then (λ _, "D"%char) <$> cdr3_source !! p
    else cdr3_source !! p.
Proof.
  intros Hle. rewrite relabel_d_nat.
  destruct (decide (p < length cdr3_source)) as [Hp|Hp].
  2:{ rewrite (lookup_ge_None_2 cdr3_source p) by lia.
      replace (if decide (start <= p ∧ p < stop) then (λ _, "D"%char) <$> None else None)
        with (@None ascii) by (by case_decide).
      apply lookup_ge_None_2.
      rewrite !length_app, length_map, !length_take, !length_drop. lia. }
  case_decide as Hin.
  - rewrite lookup_app_r by (rewrite length_take; lia).
    rewrite length_take, Nat.min_l by lia.
    rewrite lookup_app_l by (rewrite length_map, length_take, length_drop; lia).
    rewrite list_lookup_fmap, lookup_take_lt by lia.
    rewrite lookup_drop. do 2 f_equal. lia.
  - destruct (decide (p < start)).
    + rewrite lookup_app_l by (rewrite length_take; lia).
      by rewrite lookup_take_lt by lia.
    + assert (stop <= p) by lia.
      rewrite lookup_app_r by (rewrite length_take; lia).
      rewrite length_take, Nat.min_l by lia.
      rewrite lookup_app_r by (rewrite length_map, length_take, length_drop; lia).
      rewrite length_map, length_take, length_drop.
      rewrite lookup_drop. f_equal. lia.
Qed.

(** What the loop over the candidates leaves behind: either nothing matched,
    or the first candidate of maximal match length was kept. *)
Lemma d_loop_result core (d_segments : list (str * str)) :
  let '(best_match, best_score, best_d) :=
    foldl (d_loop_step core) (None, 0, None) d_segments in
  (best_match = None ∧ best_score = 0 ∧ best_d = None
   ∧ ∀ item, item ∈ d_segments → lcs_size core item.2 = 0)
  ∨ (∃ before name d_seq after,
       d_segments = before ++ (name, d_seq) :: after
       ∧ best_match = Some (difflib.find_longest_match core d_seq)
       ∧ best_score = lcs_size core d_seq
       ∧ best_d = Some d_seq
       ∧ 0 < lcs_size core d_seq
       ∧ (∀ item, item ∈ before → lcs_size core item.2 < lcs_size core d_seq)
       ∧ (∀ item, item ∈ after → lcs_size core item.2 <= lcs_size core d_seq)).
Proof.
  induction d_segments as [|[name d_seq] l IH] using rev_ind.
  - simpl. left. repeat split; try done. intros item Hin. by apply elem_of_nil in Hin.
  - rewrite foldl_app. simpl.
    destruct (foldl (d_loop_step core) (None, 0, None) l) as [[bm bs] bd].
    unfold d_loop_step. fold (lcs_size core d_seq).
    destruct IH as [(-> & -> & -> & Hzero)|(pre & n0 & d0 & post & -> & -> & -> & -> & Hpos & Hpre & Hpost)].
    + case_decide as Hlt.
      * right. exists l, name, d_seq, []. repeat split; try done.
        -- intros item Hin. rewrite (Hzero item Hin). done.
        -- intros item Hin. by apply elem_of_nil in Hin.
      * left. repeat split; try done. intros item Hin.
        apply elem_of_app in Hin as [Hin|Hin]; [by apply Hzero|].
        apply list_elem_of_singleton in Hin as ->. simpl. lia.
    + case_decide as Hlt.
      * right. exists (pre ++ (n0, d0) :: post), name, d_seq, [].
        repeat split; try done; [lia| |].
        -- intros item Hin. apply elem_of_app in Hin as [Hin|Hin].
           ++ specialize (Hpre item Hin). lia.
           ++ apply elem_of_cons in Hin as [->|Hin]; [simpl; lia|].
              specialize (Hpost item Hin). lia.
        -- intros item Hin. by apply elem_of_nil in Hin.
      * right. exists pre, n0, d0, (post ++ [(name, d_seq)]).
        repeat split; try done.
        -- by rewrite <- app_assoc.
        -- intros item Hin. apply elem_of_app in Hin as [Hin|Hin]; [by apply Hpost|].
           apply list_elem_of_singleton in Hin as ->. simpl. lia.
Qed.

(** ** The matcher reports a common block *)

Section matcher_sound.
Context {A : Type} `{EqDecision A}.
Implicit Types a b : list A.


Lemma indices_spec b elt j : j ∈ difflib.indices b elt ↔ b !! j = Some elt.
Proof.
  unfold difflib.indices. rewrite list_elem_of_filter, elem_of_seq.
  split; [by intros [? _]|]. intros Hj. split; [done|].
  apply lookup_lt_Some in Hj. lia.
Qed.

Lemma b2j_get_elem b elt j : j ∈ difflib.b2j_get b elt → b !! j = Some elt.
Proof.
  unfold difflib.b2j_get. case_decide.
  - intros Hin. by apply elem_of_nil in Hin.
  - apply indices_spec.
Qed.

Lemma common_block_snoc a b i j k x :
  common_block a b i j k →
  a !! (i + k) = Some x → b !! (j + k) = Some x →
  common_block a b i j (S k).
Proof.
  intros Hblk Ha Hb t Ht. destruct (decide (t = k)) as [->|Hne].
  - by exists x.
  - apply Hblk. lia.
Qed.

Lemma common_block_cons a b i j k x :
  common_block a b (S i) (S j) k →
  a !! i = Some x → b !! j = Some x →
  common_block a b i j (S k).
Proof.
  intros Hblk Ha Hb t Ht. destruct t as [|t].
  - exists x. by rewrite !Nat.add_0_r.
  - destruct (Hblk t) as (y & Hy1 & Hy2); [lia|].
    exists y. by rewrite <- !Nat.add_succ_comm.
Qed.

Lemma block_step a b i j j2len x :
  j2len_ok a b i j2len → a !! i = Some x → b !! j = Some x →
  let k := difflib.j2lenget_pred j2len j + 1 in
  1 <= k ∧ k <= S i ∧ k <= j + 1 ∧ common_block a b (i + 1 - k) (j + 1 - k) k.
Proof.
  intros Hok Ha Hb. simpl.
  assert (common_block a b i j 1) as Hone.
  { intros t Ht. exists x. replace t with 0 by lia. by rewrite !Nat.add_0_r. }
  destruct j as [|j']; simpl.
  { repeat split; try lia.
    match goal with |- common_block _ _ ?p ?q _ =>
      replace p with i by lia; replace q with 0 by lia end. done. }
  destruct (j2len !! j') as [k0|] eqn:E; simpl.
  2:{ repeat split; try lia.
      match goal with |- common_block _ _ ?p ?q _ =>
        replace p with i by lia; replace q with (S j') by lia end. done. }
  destruct (Hok _ _ E) as (H1 & H2 & H3 & Hblk).
  repeat split; try lia.
  match goal with |- common_block _ _ ?p ?q ?r =>
    replace p with (i - k0) by lia; replace q with (j' + 1 - k0) by lia;
    replace r with (S k0) by lia end.
  apply common_block_snoc with x; [done| |].
  - by replace (i - k0 + k0) with i by lia.
  - by replace (j' + 1 - k0 + k0) with (S j') by lia.
Qed.

Lemma scan_j_sound a b i x j2len js best newj2len :
  a !! i = Some x → (∀ j, j ∈ js → b !! j = Some x) →
  j2len_ok a b i j2len → best_ok a b best → j2len_ok a b (S i) newj2len →
  best_ok a b (foldl (difflib.scan_j i j2len) (best, newj2len) js).1
  ∧ j2len_ok a b (S i) (foldl (difflib.scan_j i j2len) (best, newj2len) js).2.
Proof.
  intros Ha Hjs Hok. revert best newj2len.
  induction js as [|j js IH]; intros best newj2len Hbest Hnew; simpl; [done|].
  assert (b !! j = Some x) as Hb by (apply Hjs; left).
  destruct (block_step a b i j j2len x Hok Ha Hb) as (H1 & H2 & H3 & Hblk).
  assert (j2len_ok a b (S i)
            (<[j:=difflib.j2lenget_pred j2len j + 1]> newj2len)) as Hnew'.
  { intros j1 k1. rewrite lookup_insert. case_decide as Hj.
    - intros [= <-]. subst j1. repeat split; try lia.
      by replace (S i - (difflib.j2lenget_pred j2len j + 1))
        with (i + 1 - (difflib.j2lenget_pred j2len j + 1)) by lia.
    - apply Hnew. }
  case_decide.
  - apply IH; [|done|done]. intros j1 Hj1. apply Hjs. by right.
  - apply IH; [|done|done]. intros j1 Hj1. apply Hjs. by right.
Qed.

Lemma j2len_ok_empty a b i : j2len_ok a b i ∅.
Proof. intros j k Hjk. by rewrite lookup_empty in Hjk. Qed.

Lemma scan_a_sound a b i rest best j2len :
  drop i a = rest → j2len_ok a b i j2len → best_ok a b best →
  best_ok a b (difflib.scan_a b i rest best j2len).
Proof.
  revert i best j2len.
  induction rest as [|x rest IH]; intros i best j2len Hdrop Hok Hbest; simpl; [done|].
  assert (a !! i = Some x) as Ha.
  { rewrite <- (Nat.add_0_r i), <- lookup_drop, Hdrop. done. }
  pose proof (scan_j_sound a b i x j2len (difflib.b2j_get b x) best ∅ Ha
                (λ j, b2j_get_elem b x j) Hok Hbest (j2len_ok_empty a b (S i)))
    as [Hb' Hn'].
  destruct (foldl (difflib.scan_j i j2len) (best, ∅) (difflib.b2j_get b x))
    as [best' new']. simpl in *.
  apply IH; [|done|done].
  replace (S i) with (i + 1) by lia. by rewrite <- drop_drop, Hdrop.
Qed.

Lemma extend_left_sound a b i j k :
  common_block a b i j k →
  best_ok a b (difflib.extend_left a b i j k).
Proof.
  revert j k. induction i as [|i IH]; intros j k Hblk; simpl; [done|].
  destruct j as [|j]; [done|].
  destruct (a !! i) as [x|] eqn:Ea; [|done].
  destruct (b !! j) as [y|] eqn:Eb; [|done].
  case_decide as Hxy; [|done]. subst y.
  apply IH. by apply common_block_cons with x.
Qed.

Lemma extend_right_sound (xs ys : list A) t :
  t < difflib.extend_right xs ys → ∃ x, xs !! t = Some x ∧ ys !! t = Some x.
Proof.
  revert ys t. induction xs as [|x xs IH]; intros [|y ys] t; simpl; try lia.
  case_decide as Hxy; [|lia]. subst y. intros Ht.
  destruct t as [|t]; [by exists x|]. simpl. apply IH. lia.
Qed.

Theorem find_longest_match_sound a b :
  best_ok a b (difflib.find_longest_match a b).
Proof.
  unfold difflib.find_longest_match.
  set (best := difflib.scan_a b 0 a _ ∅).
  assert (best_ok a b best) as Hbest.
  { apply scan_a_sound; [done|apply j2len_ok_empty|]. intros t Ht. simpl in Ht. lia. }
  apply extend_left_sound in Hbest.
  set (m := difflib.extend_left a b _ _ _) in *.
  unfold best_ok in *. simpl. intros t Ht.
  destruct (decide (t < difflib.match_size m)) as [Hlt|Hge]; [by apply Hbest|].
  destruct (extend_right_sound
              (drop (difflib.match_a m + difflib.match_size m) a)
              (drop (difflib.match_b m + difflib.match_size m) b)
              (t - difflib.match_size m)) as (x & Hx & Hy); [lia|].
  exists x. rewrite lookup_drop in Hx, Hy. split.
  - rewrite <- Hx. f_equal. lia.
  - rewrite <- Hy. f_equal. lia.
Qed.

Lemma common_block_shared a b i j k :
  0 < k → common_block a b i j k → ∃ x, x ∈ a ∧ x ∈ b.
Proof.
  intros Hk Hblk. destruct (Hblk 0 Hk) as (x & Ha & Hb).
  exists x. split; eapply list_elem_of_lookup_2; eauto.
Qed.

End matcher_sound.

(** ** Below the autojunk threshold the reported block is a longest one *)

Section matcher_longest.
Context {A : Type} `{EqDecision A}.
Implicit Types a b : list A.


Lemma csuf_unfold a b i j :
  csuf a b i j =
  match a !! i, b !! j with
  | Some x, Some y =>
      if decide (x = y)
      then S (match j with 0 => 0 | S j' => csuf_before a b i j' end)
      else 0
  | _, _ => 0
  end.
Proof. destruct i, j; simpl; done. Qed.

Lemma scan_j_fold_lookup i j2len js best (newj2len : gmap nat nat) j :
  (foldl (difflib.scan_j i j2len) (best, newj2len) js).2 !! j
  = if decide (j ∈ js) then Some (difflib.j2lenget_pred j2len j + 1)
    else newj2len !! j.
Proof.
  revert best newj2len. induction js as [|j0 js IH]; intros best newj2len.
  { rewrite decide_False; [done|]. intros Hin. by apply elem_of_nil in Hin. }
  cbn [foldl].
  assert ((difflib.scan_j i j2len (best, newj2len) j0).2
          = <[j0:=difflib.j2lenget_pred j2len j0 + 1]> newj2len) as Hstep.
  { unfold difflib.scan_j. cbv beta iota zeta.
    by destruct (decide (difflib.match_size best < _)). }
  destruct (difflib.scan_j i j2len (best, newj2len) j0) as [best' new'].
  simpl in Hstep. subst new'. rewrite IH.
  destruct (decide (j ∈ js)) as [Hin|Hnin].
  - rewrite decide_True; [done|by right].
  - destruct (decide (j = j0)) as [->|Hne].
    + rewrite decide_True by left. by rewrite lookup_insert_eq.
    + rewrite decide_False.
      * by rewrite lookup_insert_ne.
      * intros Hin. apply elem_of_cons in Hin as [?|?]; done.
Qed.

Lemma scan_j_fold_size i j2len js best (newj2len : gmap nat nat) :
  difflib.match_size best
    <= difflib.match_size (foldl (difflib.scan_j i j2len) (best, newj2len) js).1
  ∧ ∀ j, j ∈ js →
      difflib.j2lenget_pred j2len j + 1
      <= difflib.match_size (foldl (difflib.scan_j i j2len) (best, newj2len) js).1.
Proof.
  revert best newj2len. induction js as [|j0 js IH]; intros best newj2len.
  { simpl. split; [done|]. intros j Hin. by apply elem_of_nil in Hin. }
  cbn [foldl].
  assert (difflib.match_size best
            <= difflib.match_size (difflib.scan_j i j2len (best, newj2len) j0).1
          ∧ difflib.j2lenget_pred j2len j0 + 1
            <= difflib.match_size (difflib.scan_j i j2len (best, newj2len) j0).1)
    as [Hs1 Hs2].
  { unfold difflib.scan_j. cbv beta iota zeta.
    destruct (decide (difflib.match_size best < _)); simpl; lia. }
  destruct (difflib.scan_j i j2len (best, newj2len) j0) as [best' new'].
  destruct (IH best' new') as [IH1 IH2]. simpl in Hs1, Hs2.
  split; [lia|].
  intros j Hin. apply elem_of_cons in Hin as [->|Hin]; [lia|by apply IH2].
Qed.

Lemma j2lenget_pred_exact a b i j2len j :
  j2len_exact a b i j2len →
  difflib.j2lenget_pred j2len j
  = match j with 0 => 0 | S j' => csuf_before a b i j' end.
Proof. intros Hex. destruct j as [|j']; simpl; [done|]. apply Hex. Qed.

Lemma scan_round_exact a b i x j2len best :
  a !! i = Some x → ¬ difflib.popular b x → j2len_exact a b i j2len →
  let r := foldl (difflib.scan_j i j2len) (best, ∅) (difflib.b2j_get b x) in
  j2len_exact a b (S i) r.2
  ∧ difflib.match_size best <= difflib.match_size r.1
  ∧ ∀ j, csuf a b i j <= difflib.match_size r.1.
Proof.
  intros Ha Hpop Hex. simpl.
  unfold difflib.b2j_get. rewrite decide_False by done.
  pose proof (scan_j_fold_size i j2len (difflib.indices b x) best ∅) as [Hs1 Hs2].
  split; [|split; [done|]].
  - intros j. rewrite scan_j_fold_lookup. simpl. rewrite csuf_unfold, Ha.
    case_decide as Hin.
    + apply indices_spec in Hin. rewrite Hin, decide_True by done. simpl.
      rewrite (j2lenget_pred_exact a b i j2len j Hex). lia.
    + rewrite lookup_empty. simpl.
      destruct (b !! j) as [y|] eqn:Eb; [|done].
      case_decide as Hxy; [|done]. subst y.
      exfalso. apply Hin. by apply indices_spec.
  - intros j. rewrite csuf_unfold, Ha.
    destruct (b !! j) as [y|] eqn:Eb; [|lia].
    case_decide as Hxy; [|lia]. subst y.
    assert (j ∈ difflib.indices b x) as Hin by by apply indices_spec.
    specialize (Hs2 j Hin).
    rewrite (j2lenget_pred_exact a b i j2len j Hex) in Hs2. lia.
Qed.

Lemma scan_a_covers a b i rest best j2len :
  drop i a = rest → (∀ x, x ∈ rest → ¬ difflib.popular b x) →
  j2len_exact a b i j2len →
  (∀ i' j, i' < i → csuf a b i' j <= difflib.match_size best) →
  ∀ i' j, csuf a b i' j <= difflib.match_size (difflib.scan_a b i rest best j2len).
Proof.
  revert i best j2len.
  induction rest as [|x rest IH]; intros i best j2len Hdrop Hpop Hex Hcov; simpl.
  - intros i' j. destruct (decide (i' < i)) as [Hlt|Hge]; [by apply Hcov|].
    assert (length a <= i) as Hlen.
    { destruct (decide (length a <= i)); [done|].
      assert (length (drop i a) = 0) as Hl by by rewrite Hdrop.
      rewrite length_drop in Hl. lia. }
    rewrite csuf_unfold. rewrite (lookup_ge_None_2 a i') by lia. lia.
  - assert (a !! i = Some x) as Ha.
    { rewrite <- (Nat.add_0_r i), <- lookup_drop, Hdrop. done. }
    assert (¬ difflib.popular b x) as Hx by (apply Hpop; left).
    pose proof (scan_round_exact a b i x j2len best Ha Hx Hex) as (Hn & Hsz & Hrow).
    simpl in Hn, Hsz, Hrow.
    destruct (foldl (difflib.scan_j i j2len) (best, ∅) (difflib.b2j_get b x))
      as [best' new']. simpl in *.
    apply IH; [| |done|].
    + replace (S i) with (i + 1) by lia. by rewrite <- drop_drop, Hdrop.
    + intros y Hy. apply Hpop. by right.
    + intros i' j Hi'. destruct (decide (i' = i)) as [->|Hne]; [apply Hrow|].
      etrans; [apply Hcov; lia|done].
Qed.

Lemma extend_left_size a b i j k :
  k <= difflib.match_size (difflib.extend_left a b i j k).
Proof.
  revert j k. induction i as [|i IH]; intros j k; simpl; [done|].
  destruct j as [|j]; [done|].
  destruct (a !! i) as [x|]; [|done].
  destruct (b !! j) as [y|]; [|done].
  case_decide; [|done]. etrans; [|apply IH]. lia.
Qed.

Lemma csuf_block a b i j k :
  common_block a b i j (S k) → S k <= csuf a b (i + k) (j + k).
Proof.
  revert i j. induction k as [|k IH]; intros i j Hblk.
  - destruct (Hblk 0) as (x & Ha & Hb); [lia|].
    rewrite csuf_unfold, Ha, Hb, decide_True by done. lia.
  - destruct (Hblk (S k)) as (x & Ha & Hb); [lia|].
    assert (common_block a b i j (S k)) as Hpre.
    { intros t Ht. apply Hblk. lia. }
    specialize (IH i j Hpre).
    rewrite csuf_unfold, Ha, Hb, decide_True by done.
    replace (j + S k) with (S (j + k)) by lia.
    replace (i + S k) with (S (i + k)) by lia. simpl. lia.
Qed.

Lemma not_popular_short b x : length b < 200 → ¬ difflib.popular b x.
Proof. intros Hlen [Hge _]. lia. Qed.

Theorem find_longest_match_longest a b i j k :
  length b < 200 → common_block a b i j k →
  k <= difflib.match_size (difflib.find_longest_match a b).
Proof.
  intros Hlen Hblk. destruct k as [|k]; [lia|].
  apply csuf_block in Hblk.
  unfold difflib.find_longest_match. simpl.
  set (best := difflib.scan_a b 0 a _ ∅).
  assert (csuf a b (i + k) (j + k) <= difflib.match_size best) as Hcov.
  { apply scan_a_covers; [done| | |].
    - intros x _. by apply not_popular_short.
    - intros j'. by rewrite lookup_empty.
    - intros i' j' Hi'. lia. }
  pose proof (extend_left_size a b (difflib.match_a best) (difflib.match_b best)
                (difflib.match_size best)).
  lia.
Qed.

End matcher_longest.

(** ** [best_d_alignment]: the two ways it can end *)

Lemma best_d_alignment_cases (cdr3 cdr3_source : str)
    (d_segments : list (str * str)) (min_v min_j : Z) :
  let core := core_of cdr3 min_v min_j in
  (best_d_alignment cdr3 cdr3_source d_segments min_v min_j
     = (cdr3, cdr3_source, None)
   ∧ ∀ item, item ∈ d_segments → lcs_size core item.2 = 0)
  ∨ (∃ before name d_seq after,
       d_segments = before ++ (name, d_seq) :: after
       ∧ 0 < lcs_size core d_seq
       ∧ (∀ item, item ∈ before → lcs_size core item.2 < lcs_size core d_seq)
       ∧ (∀ item, item ∈ after → lcs_size core item.2 <= lcs_size core d_seq)
       ∧ best_d_alignment cdr3 cdr3_source d_segments min_v min_j
         = (cdr3,
            relabel_d cdr3_source
              (min_v + Z.of_nat (difflib.match_a (difflib.find_longest_match core d_seq)))
              (min_v + Z.of_nat (difflib.match_a (difflib.find_longest_match core d_seq))
               + Z.of_nat (lcs_size core d_seq)),
            Some d_seq)).
Proof.
  intros core. unfold best_d_alignment. fold core.
  pose proof (d_loop_result core d_segments) as Hloop.
  destruct (foldl (d_loop_step core) (None, 0, None) d_segments) as [[bm bs] bd].
  destruct Hloop as [(-> & -> & -> & Hzero)
                    |(pre & name & d_seq & post & -> & -> & -> & -> & Hpos & Hpre & Hpost)].
  - left. done.
  - right. exists pre, name, d_seq, post.
    rewrite decide_True by done. done.
Qed.

Lemma core_of_length (cdr3 : str) (min_v min_j : Z) :
  (0 <= min_v)%Z →
  Z.to_nat min_v + length (core_of cdr3 min_v min_j) <= Nat.max (Z.to_nat min_v) (length cdr3).
Proof.
  intros Hv. unfold core_of, Py.slice. simpl.
  rewrite length_take, length_drop.
  replace min_v with (Z.of_nat (Z.to_nat min_v)) at 2 3 by lia.
  rewrite clamp_of_nat. lia.
Qed.

Lemma common_block_bound {A} (a b : list A) i j k :
  0 < k → common_block a b i j k → i + k <= length a.
Proof.
  intros Hk Hblk. destruct (Hblk (k - 1)) as (x & Ha & _); [lia|].
  apply lookup_lt_Some in Ha. lia.
Qed.

(** The span [start, stop) that a successful match relabels, when [min_v]
    is not negative. *)
Lemma relabel_d_span (cdr3_source : str) (min_v : Z) (a k : nat) :
  (0 <= min_v)%Z →
  let start := Z.to_nat min_v + a in
  let stop := start + k in
  let labels := relabel_d cdr3_source (min_v + Z.of_nat a) (min_v + Z.of_nat a + Z.of_nat k) in
  length labels = length cdr3_source
  ∧ ∀ p, labels !! p
         = if decide (start <= p ∧ p < stop)
           then (λ _, "D"%char) <$> cdr3_source !! p
           else cdr3_source !! p.
Proof.
  intros Hv. simpl.
  replace (min_v + Z.of_nat a)%Z with (Z.of_nat (Z.to_nat min_v + a)) by lia.
  replace (Z.of_nat (Z.to_nat min_v + a) + Z.of_nat k)%Z
    with (Z.of_nat (Z.to_nat min_v + a + k)) by lia.
  split.
  - apply relabel_d_length. lia.
  - intros p. apply relabel_d_lookup. lia.
Qed.

Lemma v_labels_alphabet cdr3 germline_v p c :
  v_labels cdr3 germline_v !! p = Some c → c = "V"%char ∨ c = "N"%char.
Proof.
  unfold v_labels. intros Hp.
  destruct (v_walk_pointwise cdr3 0 germline_v (replicate (length cdr3) "N"%char) p)
    as [Heq|[_ Hv]]; [|rewrite Hv in Hp; naive_solver].
  rewrite Heq in Hp. apply lookup_replicate in Hp as [-> _]. auto.
Qed.

(** ** Claims on the decomposition *)

(** C1: the fragments do not always concatenate to the CDR3; this is the
    input on which the code departs from the claim.  The labels of
    ["GYSGA"] against the germline strings ["CASSQ"] and ["SYEQF"] are
    ["NJVNN"]; the only cut the selector can draw "before D" is at 2 and the
    only one "after D" is at 0, and nothing orders the two draws, so the
    selector returns [(2, 0)]: the pair is not "one cutpoint before D and
    one after D" as its docstring promises, the repository test's
    [cut1 < cut2] fails on it, and the three fragments ["GYS"], [""],
    ["YSGA"] that [shuffle] slices with it concatenate to ["GYSYSGA"], not
    to the CDR3. *)
Lemma C1_inverted_cuts_counterexample :
  let cdr3 := lit "GYSGA" in
  let labels := label_cdr3_germline_vj_regions cdr3 (lit "CASSQ") (lit "SYEQF") in
  labels = lit "NJVNN"
  ∧ (choose_cutpoints_around_d (H:=lcg) labels (rng_seed 1)).1 = Some (2, 0)
  ∧ v_part_of cdr3 2 ++ d_part_of cdr3 2 0 ++ j_part_of cdr3 0 = lit "GYSYSGA"
  ∧ ¬ fragments_reconstruct cdr3 2 0.
Proof.
  repeat split; try (vm_compute; reflexivity).
  unfold fragments_reconstruct. vm_compute. discriminate.
Qed.

(** What the slicing of [shuffle] does with a pair drawn by the selector
    on the label string of [cdr3]: the fragments [cdr3[:cut1+1]],
    [cdr3[cut1+1:cut2+1]] and [cdr3[cut2+1:]] concatenate to [cdr3] exactly
    when the two draws came out in order, [cut1 <= cut2]. *)
Theorem drawn_cuts_reconstruct_iff `{RandomGen}
    (cdr3 labels : str) (g : rng_state) (cut1 cut2 : nat) :
  length labels = length cdr3 →
  (choose_cutpoints_around_d labels g).1 = Some (cut1, cut2) →
  fragments_reconstruct cdr3 cut1 cut2 ↔ cut1 <= cut2.
Proof.
  intros Hlen Hsel. apply fragments_iff.
  apply choose_cutpoints_some in Hsel as [Hb _].
  apply cuts_before_spec in Hb as [[_ Hb] _]. lia.
Qed.

Lemma drawn_cuts_reconstruct_iff_witness :
  (choose_cutpoints_around_d (H:=lcg) (lit "VVVVNNNDDDDJJJJ") 1%Z).1
  = Some (3, 10)
  ∧ (fragments_reconstruct (lit "CASSSHAGGNTEAFF") 3 10 ↔ 3 <= 10).
Proof.
  assert ((choose_cutpoints_around_d (H:=lcg) (lit "VVVVNNNDDDDJJJJ") 1%Z).1
          = Some (3, 10)) as Hsel by (vm_compute; reflexivity).
  split; [exact Hsel|].
  apply (drawn_cuts_reconstruct_iff (H:=lcg) (lit "CASSSHAGGNTEAFF")
           (lit "VVVVNNNDDDDJJJJ") 1%Z 3 10).
  - reflexivity.
  - exact Hsel.
Defined.


Lemma all_N_no_cuts_before n : cuts_before (replicate n "N"%char) = [].
Proof.
  apply elem_of_nil_inv. intros i Hi.
  apply cuts_before_spec in Hi as (_ & a & b & Ha & Hb & Hin).
  apply lookup_replicate in Ha as [-> _]. apply lookup_replicate in Hb as [-> _].
  unfold before_d in Hin. absurd_member Hin.
Qed.

(** C2: [choose_cutpoints_around_d] returns nothing exactly when one of the
    two candidate lists is empty and otherwise one index from each; the cut1
    candidates are the [i] in [1, len-2] whose pair
    [(labels[i], labels[i+1])] is one of (V,N), (N,D), (V,D), (V,J), the
    cut2 candidates the [i] in [0, len-3] whose pair is one of (D,N), (D,J),
    (N,J), (V,J).  An all-N string yields nothing and
    ["VVVVNNNDDDDJJJJ"] yields a pair from [3; 6] and [10]. *)
Theorem C2_choose_cutpoints_spec `{RandomGen} (label_string : str) (g : rng_state) :
  ((choose_cutpoints_around_d label_string g).1 = None
   ↔ cuts_before label_string = [] ∨ cuts_after label_string = [])
  ∧ (∀ cut1 cut2,
       (choose_cutpoints_around_d label_string g).1 = Some (cut1, cut2) →
       cut1 ∈ cuts_before label_string ∧ cut2 ∈ cuts_after label_string)
  ∧ (∀ i, i ∈ cuts_before label_string
          ↔ (1 <= i ∧ i + 2 <= length label_string)
            ∧ ∃ a b, label_string !! i = Some a
                     ∧ label_string !! (i + 1) = Some b
                     ∧ (a, b) ∈ [("V", "N"); ("N", "D"); ("V", "D"); ("V", "J")]%char)
  ∧ (∀ i, i ∈ cuts_after label_string
          ↔ i + 3 <= length label_string
            ∧ ∃ a b, label_string !! i = Some a
                     ∧ label_string !! (i + 1) = Some b
                     ∧ (a, b) ∈ [("D", "N"); ("D", "J"); ("N", "J"); ("V", "J")]%char)
  ∧ (∀ n, (choose_cutpoints_around_d (replicate n "N"%char) g).1 = None)
  ∧ (∃ cut1 cut2,
       (choose_cutpoints_around_d (lit "VVVVNNNDDDDJJJJ") g).1 = Some (cut1, cut2)
       ∧ cut1 ∈ [3; 6] ∧ cut2 ∈ [10]).
Proof.
  split; [apply choose_cutpoints_none|].
  split; [apply choose_cutpoints_some|].
  split; [apply cuts_before_spec|].
  split; [apply cuts_after_spec|].
  split.
  - intros n. apply choose_cutpoints_none. left. apply all_N_no_cuts_before.
  - destruct (choose_cutpoints_around_d (lit "VVVVNNNDDDDJJJJ") g).1
      as [[cut1 cut2]|] eqn:E.
    + exists cut1, cut2. split; [done|].
      by apply choose_cutpoints_some in E.
    + apply choose_cutpoints_none in E. vm_compute in E. by destruct E.
Qed.

(** C3, as stated, fails.  On the input of the repository's own test the
    third result is the amino-acid sequence ["GLAGG"] of the best
    candidate, which is a value of [d_segments] and none of its keys; the
    gene id ["TRBD2*01"] is not returned. *)
Lemma C3_gene_id_counterexample :
  let d_segments :=
    [(lit "TRBD1*01", lit "GGGAC"); (lit "TRBD2*01", lit "GLAGG")] in
  let cdr3 := lit "CASSSLAGGTEAFF" in
  let r := best_d_alignment cdr3 (lit "VVVVNNNNNNNJJJJ") d_segments 4 3 in
  0 < lcs_size (core_of cdr3 4 3) (lit "GLAGG")
  ∧ r.2 = Some (lit "GLAGG")
  ∧ r.2 ≠ Some (lit "TRBD2*01")
  ∧ ¬ ∃ name, r.2 = Some name ∧ name ∈ d_segments.*1.
Proof.
  split; [vm_compute; lia|].
  split; [vm_compute; reflexivity|].
  split; [vm_compute; discriminate|].
  intros (name & Hr & Hin). vm_compute in Hr. injection Hr as <-.
  vm_compute in Hin. absurd_member Hin.
Qed.

(** C3, amended: when some candidate has a match of positive length with
    [core = cdr3[min_v : len(cdr3) - min_j]] (and [min_v >= 0]), the third
    result is the amino-acid sequence [d_seq] of the best candidate, the
    best being the first one in iteration order whose match length is
    maximal; the matcher's block is common to [core] and [d_seq], is a
    longest one when [d_seq] is shorter than 200, and the returned labels
    are the input labels with the span
    [min_v + a, min_v + a + size) set to D. *)
Theorem C3_best_d_alignment_match (cdr3 cdr3_source : str)
    (d_segments : list (str * str)) (min_v min_j : Z) :
  (0 <= min_v)%Z →
  (∃ item, item ∈ d_segments
           ∧ 0 < lcs_size (core_of cdr3 min_v min_j) item.2) →
  ∃ before name d_seq after labels,
    let core := core_of cdr3 min_v min_j in
    let m := difflib.find_longest_match core d_seq in
    let start := Z.to_nat min_v + difflib.match_a m in
    let stop := start + difflib.match_size m in
    d_segments = before ++ (name, d_seq) :: after
    ∧ best_d_alignment cdr3 cdr3_source d_segments min_v min_j
      = (cdr3, labels, Some d_seq)
    ∧ 0 < difflib.match_size m
    ∧ (∀ item, item ∈ before → lcs_size core item.2 < difflib.match_size m)
    ∧ (∀ item, item ∈ after → lcs_size core item.2 <= difflib.match_size m)
    ∧ common_block core d_seq (difflib.match_a m) (difflib.match_b m)
        (difflib.match_size m)
    ∧ (length d_seq < 200 →
       ∀ i j k, common_block core d_seq i j k → k <= difflib.match_size m)
    ∧ stop <= length cdr3
    ∧ length labels = length cdr3_source
    ∧ ∀ p, labels !! p
           = if decide (start <= p ∧ p < stop)
             then (λ _, "D"%char) <$> cdr3_source !! p
             else cdr3_source !! p.
Proof.
  intros Hv (item & Hitem & Hpos).
  destruct (best_d_alignment_cases cdr3 cdr3_source d_segments min_v min_j)
    as [[_ Hzero]|(pre & name & d_seq & post & Hsplit & Hbest & Hpre & Hpost & Heq)].
  { rewrite (Hzero item Hitem) in Hpos. lia. }
  set (core := core_of cdr3 min_v min_j) in *.
  set (m := difflib.find_longest_match core d_seq) in *.
  pose proof (relabel_d_span cdr3_source min_v (difflib.match_a m)
                (difflib.match_size m) Hv) as [Hlen Hlook].
  pose proof (find_longest_match_sound core d_seq) as Hsound.
  fold m in Hsound. unfold best_ok in Hsound.
  eexists pre, name, d_seq, post, _. cbv zeta. fold core. fold m.
  split; [done|]. split; [exact Heq|].
  split; [done|]. split; [done|]. split; [done|]. split; [done|].
  split; [intros Hshort i j k; by apply find_longest_match_longest|].
  split; [|split; [exact Hlen|exact Hlook]].
  pose proof (common_block_bound _ _ _ _ _ Hbest Hsound) as Hb.
  pose proof (core_of_length cdr3 min_v min_j Hv) as Hc. fold core in Hc.
  unfold lcs_size in Hbest, Hb. fold m in Hbest, Hb. lia.
Qed.

Lemma C3_best_d_alignment_match_witness :
  ∃ before name d_seq after labels,
    [(lit "TRBD1*01", lit "GGGAC"); (lit "TRBD2*01", lit "GLAGG")]
      = before ++ (name, d_seq) :: after
    ∧ best_d_alignment (lit "CASSSLAGGTEAFF") (lit "VVVVNNNNNNNJJJJ")
        [(lit "TRBD1*01", lit "GGGAC"); (lit "TRBD2*01", lit "GLAGG")] 4 3
      = (lit "CASSSLAGGTEAFF", labels, Some d_seq).
Proof.
  destruct (C3_best_d_alignment_match (lit "CASSSLAGGTEAFF")
              (lit "VVVVNNNNNNNJJJJ")
              [(lit "TRBD1*01", lit "GGGAC"); (lit "TRBD2*01", lit "GLAGG")] 4 3)
    as (before & name & d_seq & after & labels & Hsplit & Heq & _).
  - lia.
  - exists (lit "TRBD2*01", lit "GLAGG"). split.
    + right. left.
    + vm_compute. lia.
  - exists before, name, d_seq, after, labels. split; [exact Hsplit|exact Heq].
Defined.

(** C4: when no candidate has a common block of positive length with the
    core, [best_d_alignment] returns the label string it was given and
    [None] for the matched D gene. *)
Theorem C4_no_match_unchanged (cdr3 cdr3_source : str)
    (d_segments : list (str * str)) (min_v min_j : Z) :
  (∀ name d_seq i j k,
     (name, d_seq) ∈ d_segments → 0 < k →
     ¬ common_block (core_of cdr3 min_v min_j) d_seq i j k) →
  best_d_alignment cdr3 cdr3_source d_segments min_v min_j
  = (cdr3, cdr3_source, None).
Proof.
  intros Hnone.
  destruct (best_d_alignment_cases cdr3 cdr3_source d_segments min_v min_j)
    as [[Heq _]|(pre & name & d_seq & post & Hsplit & Hbest & _)]; [done|].
  exfalso.
  apply (Hnone name d_seq
           (difflib.match_a (difflib.find_longest_match (core_of cdr3 min_v min_j) d_seq))
           (difflib.match_b (difflib.find_longest_match (core_of cdr3 min_v min_j) d_seq))
           (lcs_size (core_of cdr3 min_v min_j) d_seq)).
  - rewrite Hsplit. apply elem_of_app. right. left.
  - done.
  - apply find_longest_match_sound.
Qed.

Lemma C4_no_match_unchanged_witness :
  best_d_alignment (lit "CASSSLAGGTEAFF") (lit "VVVVNNNNNNNJJJJ")
    [(lit "TRBD1*01", lit "QQQ")] 4 3
  = (lit "CASSSLAGGTEAFF", lit "VVVVNNNNNNNJJJJ", None).
Proof.
  apply C4_no_match_unchanged.
  intros name d_seq i j k Hin Hk Hblk.
  apply list_elem_of_singleton in Hin. injection Hin as -> ->.
  destruct (Hblk 0 Hk) as (x & Ha & Hb).
  apply list_elem_of_lookup_2 in Ha, Hb.
  vm_compute in Ha, Hb.
  repeat (apply elem_of_cons in Hb as [Hb|Hb];
          [subst x; absurd_member Ha|]).
  by apply elem_of_nil in Hb.
Defined.

(** C5: a position labelled V by the germline-V walk keeps V through the
    germline-J walk, which writes J only where the label was still N;
    the D relabelling of [best_d_alignment] sets every position of its span
    to D whatever label was there, and it does overwrite V, N and J. *)
Theorem C5_label_precedence :
  (∀ cdr3 germline_v germline_j p,
     v_labels cdr3 germline_v !! p = Some "V"%char →
     label_cdr3_germline_vj_regions cdr3 germline_v germline_j !! p
     = Some "V"%char)
  ∧ (∀ cdr3 germline_v germline_j p,
       label_cdr3_germline_vj_regions cdr3 germline_v germline_j !! p
       = Some "J"%char →
       v_labels cdr3 germline_v !! p = Some "N"%char)
  ∧ (∀ cdr3 cdr3_source d_segments min_v min_j,
       (0 <= min_v)%Z →
       ∃ start stop,
         ∀ p, (best_d_alignment cdr3 cdr3_source d_segments min_v min_j).1.2 !! p
              = if decide (start <= p ∧ p < stop)
                then (λ _, "D"%char) <$> cdr3_source !! p
                else cdr3_source !! p)
  ∧ (let cdr3 := lit "CASSSLAGGTEAFF" in
     let before := label_cdr3_germline_vj_regions cdr3 (lit "CASSSL") (lit "GTEAFF") in
     let after :=
       (best_d_alignment cdr3 before [(lit "TRBD1*01", lit "SLAGGTE")] 4 3).1.2 in
     before = lit "VVVVVVNNJJJJJJ" ∧ after = lit "VVVVDDDDDDDJJJ").
Proof.
  split; [|split; [|split]].
  - intros cdr3 germline_v germline_j p Hv.
    apply j_walk_keeps; [done|discriminate].
  - intros cdr3 germline_v germline_j p Hj.
    unfold label_cdr3_germline_vj_regions in Hj.
    destruct (j_walk_pointwise cdr3 0 (reverse germline_j)
                (v_labels cdr3 germline_v) p) as [Heq|[Hn _]]; [|done].
    rewrite Heq in Hj. apply v_labels_alphabet in Hj as [Hj|Hj]; discriminate.
  - intros cdr3 cdr3_source d_segments min_v min_j Hv.
    destruct (best_d_alignment_cases cdr3 cdr3_source d_segments min_v min_j)
      as [[Heq _]|(pre & name & d_seq & post & _ & _ & _ & _ & Heq)];
      rewrite Heq; simpl.
    + exists 0, 0. intros p. rewrite decide_False by lia. done.
    + eexists _, _. apply relabel_d_span. done.
  - vm_compute. done.
Qed.

(** ** [random.shuffle] permutes *)

Section shuffle_perm.
Context `{RandomGen} {A : Type}.
Implicit Types x : list A.

Lemma insert_swap_head x k (a b : A) :
  x !! k = Some b → b :: <[k:=a]> x ≡ₚ a :: x.
Proof.
  revert k. induction x as [|c x IH]; intros k Hk; [done|].
  destruct k as [|k]; simpl in *.
  - injection Hk as ->. apply Permutation_swap.
  - rewrite (Permutation_swap c b). rewrite (IH k Hk). apply Permutation_swap.
Qed.

Lemma swap_Permutation x i j : Random.swap x i j ≡ₚ x.
Proof.
  unfold Random.swap.
  destruct (x !! i) as [xi|] eqn:Ei; [|done].
  destruct (x !! j) as [xj|] eqn:Ej; [|done].
  revert i j Ei Ej. induction x as [|a x IH]; intros i j Ei Ej; [done|].
  destruct i as [|i], j as [|j]; simpl in *.
  - by injection Ei as ->.
  - injection Ei as ->. by apply insert_swap_head.
  - injection Ej as ->. by apply insert_swap_head.
  - f_equiv. by apply IH.
Qed.

Lemma shuffle_from_Permutation i x g : (Random.shuffle_from i x g).1 ≡ₚ x.
Proof.
  revert x g. induction i as [|i IH]; intros x g; [done|].
  change (Random.shuffle_from (S i) x g)
    with (let '(j, g') := randbelow g (S i + 1) in
          Random.shuffle_from i (Random.swap x (S i) j) g').
  destruct (randbelow g (S i + 1)) as [j g'].
  rewrite IH. apply swap_Permutation.
Qed.

Lemma shuffle_Permutation x g : (Random.shuffle x g).1 ≡ₚ x.
Proof. apply shuffle_from_Permutation. Qed.

End shuffle_perm.

(** ** Recombination by positional zip *)

Lemma new_junctions_length sv sd sj :
  length sd = length sv → length sj = length sv →
  length (new_junctions sv sd sj) = length sv.
Proof.
  revert sd sj. induction sv as [|[V n] sv IH]; intros sd sj Hd Hj; [done|].
  destruct sd as [|[D dseg] sd]; [done|]. destruct sj as [|[J c] sj]; [done|].
  simpl in *. f_equal. apply IH; lia.
Qed.

Lemma new_junctions_lookup sv sd sj k V n D dseg J c :
  sv !! k = Some (V, n) → sd !! k = Some (D, dseg) → sj !! k = Some (J, c) →
  new_junctions sv sd sj !! k
  = Some {| new_v := V; new_cdr3 := n ++ dseg ++ c; new_j := J;
            components := (n, dseg, c) |}.
Proof.
  revert sd sj k. induction sv as [|[V0 n0] sv IH]; intros sd sj k Hv Hd Hj; [done|].
  destruct sd as [|[D0 dseg0] sd]; [done|]. destruct sj as [|[J0 c0] sj]; [done|].
  destruct k as [|k]; simpl in *.
  - by injection Hv as -> ->; injection Hd as -> ->; injection Hj as -> ->.
  - by apply IH.
Qed.

(** ** The main loop *)


Lemma best_d_alignment_cdr3 cdr3 cdr3_source d_segments min_v min_j :
  (best_d_alignment cdr3 cdr3_source d_segments min_v min_j).1.1 = cdr3.
Proof.
  destruct (best_d_alignment_cases cdr3 cdr3_source d_segments min_v min_j)
    as [[-> _]|(? & ? & ? & ? & _ & _ & _ & _ & ->)]; done.
Qed.

Lemma best_d_alignment_length cdr3 cdr3_source d_segments min_v min_j :
  (0 <= min_v)%Z →
  length (best_d_alignment cdr3 cdr3_source d_segments min_v min_j).1.2
  = length cdr3_source.
Proof.
  intros Hv.
  destruct (best_d_alignment_cases cdr3 cdr3_source d_segments min_v min_j)
    as [[-> _]|(? & ? & ? & ? & _ & _ & _ & _ & ->)]; [done|].
  simpl. by apply relabel_d_span.
Qed.

Section engine_facts.
Context `{RandomGen}.
Variables (d : reference) (D_genes : list (str * str)) (organism chain : str).


Lemma record_error_invalid st v cdr3 j :
  ¬ all_str (v, cdr3, j) →
  step_is_error st (record_error st (gen st) v cdr3 j invalid_types) (v, cdr3, j).
Proof.
  intros Hns. eexists. split; [|by repeat split].
  left. by repeat split.
Qed.

Lemma record_error_normalized st g v cdr3 j why :
  why ≠ invalid_types →
  step_is_error st
    (record_error st g (PyStr (ensure_allele v)) (PyStr cdr3)
       (PyStr (ensure_allele j)) why)
    (PyStr v, PyStr cdr3, PyStr j).
Proof.
  intros Hwhy. eexists. split; [|by repeat split].
  right. split; [done|]. by exists v, cdr3, j.
Qed.

Lemma process_record_cases st r :
  step_is_error st (process_record d D_genes organism chain st r) r
  ∨ step_is_success st (process_record d D_genes organism chain st r).
Proof.
  destruct r as [[v cdr3] j].
  destruct v as [v| | |];
    try (left; apply record_error_invalid; intros (? & ? & ? & [=])).
  destruct cdr3 as [cdr3| | |];
    try (left; apply record_error_invalid; intros (? & ? & ? & [=])).
  destruct j as [j| | |];
    try (left; apply record_error_invalid; intros (? & ? & ? & [=])).
  unfold process_record.
  destruct (germline_lookup d organism chain (lit "V") (ensure_allele v))
    as [germline_v|e]; [|left; by apply record_error_normalized].
  destruct (germline_lookup d organism chain (lit "J") (ensure_allele j))
    as [germline_j|e]; [|left; by apply record_error_normalized].
  set (src0 := label_cdr3_germline_vj_regions cdr3 germline_v germline_j).
  assert (∃ src d_gene,
            (if decide (chain = lit "B")
             then best_d_alignment cdr3 src0 D_genes 4 3
             else (cdr3, src0, None)) = (cdr3, src, d_gene)
            ∧ length src = length cdr3) as (src & d_gene & -> & Hlen).
  { case_decide.
    - pose proof (best_d_alignment_cdr3 cdr3 src0 D_genes 4 3) as Hc.
      pose proof (best_d_alignment_length cdr3 src0 D_genes 4 3) as Hl.
      destruct (best_d_alignment cdr3 src0 D_genes 4 3) as [[c s] g].
      simpl in Hc, Hl. subst c. eexists _, _. split; [done|].
      rewrite Hl by lia. apply label_length.
    - eexists _, _. split; [done|]. apply label_length. }
  pose proof (choose_cutpoints_some src (gen st)) as Hsel.
  destruct (choose_cutpoints_around_d src (gen st)) as [[[cut1 cut2]|] g].
  - right. destruct (Hsel cut1 cut2 eq_refl) as [Hb Ha].
    eexists _, d_gene. split; [|by repeat split].
    by repeat split.
  - left. by apply record_error_normalized.
Qed.


Lemma process_record_counts st r n :
  counts_ok st n → counts_ok (process_record d D_genes organism chain st r) (S n).
Proof.
  intros (Hd & Hj & Hp & Hn).
  destruct (process_record_cases st r)
    as [(e & _ & He & Hv' & Hd' & Hj' & Hp')
       |(row & d_gene & _ & He & Hv' & Hd' & Hj' & Hp')];
    unfold counts_ok; rewrite He, Hv', Hd', Hj', Hp', ?length_app; simpl; lia.
Qed.

Lemma foldl_counts l st n :
  counts_ok st n →
  counts_ok (foldl (process_record d D_genes organism chain) st l) (n + length l).
Proof.
  revert st n. induction l as [|r l IH]; intros st n Hok; simpl.
  - by rewrite Nat.add_0_r.
  - replace (n + S (length l)) with (S n + length l) by lia.
    apply IH. by apply process_record_counts.
Qed.

Lemma foldl_errors l st (batch : list receptor) :
  l ⊆ batch →
  (∀ e, e ∈ error_cdr3 st → ∃ r, r ∈ batch ∧ error_origin r e) →
  ∀ e, e ∈ error_cdr3 (foldl (process_record d D_genes organism chain) st l) →
       ∃ r, r ∈ batch ∧ error_origin r e.
Proof.
  revert st. induction l as [|r l IH]; intros st Hsub Hst; simpl; [done|].
  apply IH.
  - intros x Hx. apply Hsub. by right.
  - intros e He.
    destruct (process_record_cases st r)
      as [(e' & Horig & Herr & _)|(row & d_gene & _ & Herr & _)];
      rewrite Herr in He; [|by apply Hst].
    apply elem_of_app in He as [He|He]; [by apply Hst|].
    apply list_elem_of_singleton in He as ->.
    exists r. split; [|done]. apply Hsub. left.
Qed.

Lemma foldl_rows l st :
  (∀ row, row ∈ presuffled_receptors st → row_ok row) →
  ∀ row,
    row ∈ presuffled_receptors
            (foldl (process_record d D_genes organism chain) st l) →
    row_ok row.
Proof.
  revert st. induction l as [|r l IH]; intros st Hst; simpl; [done|].
  apply IH. intros row Hrow.
  destruct (process_record_cases st r)
    as [(e & _ & _ & _ & _ & _ & Hp)|(row' & d_gene & Hok & _ & _ & _ & _ & Hp)];
    rewrite Hp in Hrow; [by apply Hst|].
  apply elem_of_app in Hrow as [Hrow|Hrow]; [by apply Hst|].
  by apply list_elem_of_singleton in Hrow as ->.
Qed.

Lemma repeat_list_subseteq {A} (s : list A) (k : Z) : Py.repeat_list s k ⊆ s.
Proof.
  unfold Py.repeat_list. generalize (Z.to_nat k) as n.
  induction n as [|n IH]; simpl; intros x Hx.
  - by apply elem_of_nil in Hx.
  - apply elem_of_app in Hx as [Hx|Hx]; [done|by apply IH].
Qed.

Lemma run_loop_counts g tcrs depth :
  counts_ok (run_loop d D_genes organism chain g tcrs depth)
            (length (Py.repeat_list tcrs depth)).
Proof.
  unfold run_loop.
  apply (foldl_counts (Py.repeat_list tcrs depth) (initial_state g) 0).
  by repeat split.
Qed.

Lemma run_loop_errors g tcrs depth e :
  e ∈ error_cdr3 (run_loop d D_genes organism chain g tcrs depth) →
  ∃ r, r ∈ tcrs ∧ error_origin r e.
Proof.
  unfold run_loop. apply foldl_errors.
  - apply repeat_list_subseteq.
  - intros e' He'. by apply elem_of_nil in He'.
Qed.

Lemma run_loop_rows g tcrs depth row :
  row ∈ presuffled_receptors (run_loop d D_genes organism chain g tcrs depth) →
  row_ok row.
Proof.
  unfold run_loop. apply foldl_rows.
  intros row' Hrow'. by apply elem_of_nil in Hrow'.
Qed.

(** Seen from the engine: the fragments of a diagnostic row concatenate to
    the row's CDR3 exactly when its cutpoints are in order. *)
Corollary presuffled_rows_reconstruct g tcrs depth row :
  row ∈ presuffled_receptors (run_loop d D_genes organism chain g tcrs depth) →
  row_v_part row ++ row_d_part row ++ row_j_part row = row_cdr3 row
  ↔ row_cut1 row <= row_cut2 row.
Proof.
  intros Hrow. apply run_loop_rows in Hrow as (Hlen & Hb & _ & -> & -> & ->).
  apply fragments_iff. apply cuts_before_spec in Hb as [[_ Hb] _]. lia.
Qed.

End engine_facts.

(** ** Claims on the engine *)


Section engine_claims.
Context `{RandomGen}.
Variables (d : reference) (D_genes : list (str * str)).
Variables (ambient : rng_state) (tcrs : list receptor) (chain organism : str).
Variables (depth : Z) (random_seed : option Z).

Local Abbreviation st :=
  (loop_state d D_genes organism chain random_seed ambient tcrs depth).

Lemma shuffle_zero_division return_presuffled return_errors :
  (Z.of_nat (length tcrs) * depth = 0)%Z →
  (shuffle d D_genes ambient tcrs chain organism depth random_seed
     return_presuffled return_errors).1 = ZeroDivisionError.
Proof. intros Hz. unfold shuffle. by rewrite decide_True. Qed.

Lemma shuffle_error_mode return_presuffled :
  (Z.of_nat (length tcrs) * depth ≠ 0)%Z →
  (shuffle d D_genes ambient tcrs chain organism depth random_seed
     return_presuffled true).1 = ErrorList (error_cdr3 st).
Proof. intros Hz. unfold shuffle. by rewrite decide_False. Qed.

Lemma shuffle_presuffled_mode :
  (Z.of_nat (length tcrs) * depth ≠ 0)%Z →
  (shuffle d D_genes ambient tcrs chain organism depth random_seed
     true false).1 = PresuffledAnalysis (presuffled_receptors st).
Proof. intros Hz. unfold shuffle. by rewrite decide_False. Qed.

Lemma shuffle_default_mode :
  (Z.of_nat (length tcrs) * depth ≠ 0)%Z →
  let sv := Random.shuffle (store_v st) (gen st) in
  let sd := Random.shuffle (store_d st) sv.2 in
  let sj := Random.shuffle (store_j st) sd.2 in
  (shuffle d D_genes ambient tcrs chain organism depth random_seed
     false false).1 = ShuffledBatch (new_junctions sv.1 sd.1 sj.1).
Proof.
  intros Hz. unfold shuffle. rewrite decide_False by done.
  unfold loop_state. cbv zeta.
  destruct (Random.shuffle (store_v _) (gen _)) as [sv g1]. simpl.
  destruct (Random.shuffle (store_d _) g1) as [sd g2]. simpl.
  destruct (Random.shuffle (store_j _) g2) as [sj g3]. done.
Qed.

(** C6: every record either appends one error tuple and leaves the pools
    alone, or appends exactly one [(gene_id, fragment)] entry to each of
    the three pools (and one diagnostic row); so after the main loop the
    three pools have the same length, the number of records that did not
    end in the error list, and in default mode the shuffled output has that
    many rows, unless the division that computes [failure_rate] raised. *)
Theorem C6_pool_sizes :
  let successes :=
    length (Py.repeat_list tcrs depth) - length (error_cdr3 st) in
  (∀ st0 r,
     step_is_error st0 (process_record d D_genes organism chain st0 r) r
     ∨ step_is_success st0 (process_record d D_genes organism chain st0 r))
  ∧ length (error_cdr3 st) <= length (Py.repeat_list tcrs depth)
  ∧ length (store_v st) = successes
  ∧ length (store_d st) = successes
  ∧ length (store_j st) = successes
  ∧ length (presuffled_receptors st) = successes
  ∧ match (shuffle d D_genes ambient tcrs chain organism depth random_seed
             false false).1 with
    | ShuffledBatch rows => length rows = successes
    | ZeroDivisionError => (Z.of_nat (length tcrs) * depth = 0)%Z
    | _ => False
    end.
Proof.
  pose proof (run_loop_counts d D_genes organism chain
                (start_generator random_seed ambient) tcrs depth)
    as (Hd & Hj & Hp & Hn).
  fold (loop_state d D_genes organism chain random_seed ambient tcrs depth)
    in Hd, Hj, Hp, Hn.
  cbv zeta. split; [apply process_record_cases|].
  repeat (split; [lia|]).
  destruct (decide (Z.of_nat (length tcrs) * depth = 0)%Z) as [Hz|Hz].
  - by rewrite shuffle_zero_division.
  - rewrite shuffle_default_mode by done.
    rewrite new_junctions_length.
    + rewrite (Permutation_length (shuffle_Permutation _ _)). lia.
    + rewrite !(Permutation_length (shuffle_Permutation _ _)). lia.
    + rewrite !(Permutation_length (shuffle_Permutation _ _)). lia.
Qed.

(** C7: when the run returns, error mode yields the error list whatever the
    presuffled flag, otherwise presuffled mode yields the diagnostic rows,
    otherwise each pool is shuffled on its own, one after the other, and
    the rows are the positional zip of the three shuffled pools, with
    [new_cdr3 = v_fragment + d_fragment + j_fragment] and the gene ids of
    the V and J entries; the gene id of the D entry does not appear. *)
Theorem C7_output_precedence :
  (Z.of_nat (length tcrs) * depth ≠ 0)%Z →
  (∀ return_presuffled,
     (shuffle d D_genes ambient tcrs chain organism depth random_seed
        return_presuffled true).1 = ErrorList (error_cdr3 st))
  ∧ (shuffle d D_genes ambient tcrs chain organism depth random_seed
       true false).1 = PresuffledAnalysis (presuffled_receptors st)
  ∧ ∃ sv sd sj g1 g2 g3,
      Random.shuffle (store_v st) (gen st) = (sv, g1)
      ∧ Random.shuffle (store_d st) g1 = (sd, g2)
      ∧ Random.shuffle (store_j st) g2 = (sj, g3)
      ∧ sv ≡ₚ store_v st ∧ sd ≡ₚ store_d st ∧ sj ≡ₚ store_j st
      ∧ shuffle d D_genes ambient tcrs chain organism depth random_seed
          false false = (ShuffledBatch (new_junctions sv sd sj), g3)
      ∧ length (new_junctions sv sd sj) = length sv
      ∧ ∀ k V n D dseg J c,
          sv !! k = Some (V, n) → sd !! k = Some (D, dseg) →
          sj !! k = Some (J, c) →
          new_junctions sv sd sj !! k
          = Some {| new_v := V; new_cdr3 := n ++ dseg ++ c; new_j := J;
                    components := (n, dseg, c) |}.
Proof.
  intros Hz.
  split; [intros rp; by apply shuffle_error_mode|].
  split; [by apply shuffle_presuffled_mode|].
  pose proof (run_loop_counts d D_genes organism chain
                (start_generator random_seed ambient) tcrs depth)
    as (Hd & Hj & _ & _).
  fold (loop_state d D_genes organism chain random_seed ambient tcrs depth)
    in Hd, Hj.
  pose proof (shuffle_Permutation (store_v st) (gen st)) as Pv.
  destruct (Random.shuffle (store_v st) (gen st)) as [sv g1] eqn:Ev.
  pose proof (shuffle_Permutation (store_d st) g1) as Pd.
  destruct (Random.shuffle (store_d st) g1) as [sd g2] eqn:Ed.
  pose proof (shuffle_Permutation (store_j st) g2) as Pj.
  destruct (Random.shuffle (store_j st) g2) as [sj g3] eqn:Ej.
  simpl in Pv, Pd, Pj.
  exists sv, sd, sj, g1, g2, g3.
  repeat (split; [done|]).
  split.
  { unfold shuffle. rewrite decide_False by done.
    fold (loop_state d D_genes organism chain random_seed ambient tcrs depth).
    cbv zeta. by rewrite Ev, Ed, Ej. }
  split.
  { apply new_junctions_length.
    - rewrite (Permutation_length Pd), (Permutation_length Pv). done.
    - rewrite (Permutation_length Pj), (Permutation_length Pv). done. }
  intros k V n D dseg J c. apply new_junctions_lookup.
Qed.

(** C9: on an empty batch, or with [depth = 0], the call ends in the
    division by zero of [failure_rate], whatever the output mode. *)
Theorem C9_empty_batch_raises return_presuffled return_errors :
  tcrs = [] ∨ depth = 0%Z →
  (shuffle d D_genes ambient tcrs chain organism depth random_seed
     return_presuffled return_errors).1 = ZeroDivisionError.
Proof.
  intros Hempty. apply shuffle_zero_division.
  destruct Hempty as [->| ->]; simpl; lia.
Qed.

(** C10: in the error list, a tuple whose reason is not ["invalid_types"]
    (a missing germline or a cutpoint failure) comes from an input record
    of three strings and carries its V and J ids with ["*01"] appended
    when they had no ["*"], and its CDR3 unchanged; a tuple whose reason is
    ["invalid_types"] is an input record as given, one with a field that is
    not a string. *)
Theorem C10_error_ids_normalized return_presuffled errors e :
  (shuffle d D_genes ambient tcrs chain organism depth random_seed
     return_presuffled true).1 = ErrorList errors →
  e ∈ errors →
  (err_reason e = invalid_types →
     (err_v e, err_cdr3 e, err_j e) ∈ tcrs
     ∧ ¬ all_str (err_v e, err_cdr3 e, err_j e))
  ∧ (err_reason e ≠ invalid_types →
     ∃ v cdr3 j,
       (PyStr v, PyStr cdr3, PyStr j) ∈ tcrs
       ∧ err_v e = PyStr (ensure_allele v)
       ∧ err_cdr3 e = PyStr cdr3
       ∧ err_j e = PyStr (ensure_allele j)
       ∧ ensure_allele v = (if decide ("*"%char ∈ v) then v else v ++ lit "*01")
       ∧ ensure_allele j = (if decide ("*"%char ∈ j) then j else j ++ lit "*01")).
Proof.
  intros Hout He.
  assert (errors = error_cdr3 st) as ->.
  { unfold shuffle, loop_state in *.
    destruct (decide (Z.of_nat (length tcrs) * depth = 0)%Z); [done|].
    simpl in Hout. by injection Hout as <-. }
  apply run_loop_errors in He as (r & Hr & [(Hinv & -> & Hns)|(Hni & v & cdr3 & j & -> & Hv & Hc & Hj)]).
  - split; [done|]. intros Hne. done.
  - split; [done|]. intros _. by exists v, cdr3, j.
Qed.

End engine_claims.

Lemma C7_output_precedence_witness :
  (shuffle (H:=lcg) sample_reference sample_D_genes 0%Z sample_tcrs (lit "B")
     (lit "human") 2 (Some 1%Z) true true).1
  = ErrorList
      (error_cdr3
         (run_loop (H:=lcg) sample_reference sample_D_genes (lit "human") (lit "B")
            (start_generator (H:=lcg) (Some 1%Z) 0%Z) sample_tcrs 2)).
Proof.
  destruct (C7_output_precedence (H:=lcg) sample_reference sample_D_genes 0%Z
              sample_tcrs (lit "B") (lit "human") 2 (Some 1%Z)) as [Herr _].
  - vm_compute. discriminate.
  - apply Herr.
Defined.

(** C8: two runs on the same receptors, chain, organism, depth, seed, flags
    and reference return the same table and leave the generator in the same
    state.  With a seed this holds whatever state the process-wide
    generator was in at either call; without one ([random_seed=None]) the
    generator state at the call is part of the input and has to agree. *)
Theorem C8_runs_agree `{RandomGen} (d : reference)
    (D_genes : list (str * str)) (tcrs : list receptor) (chain organism : str)
    (depth : Z) (random_seed : option Z)
    (return_presuffled return_errors : bool)
    (ambient1 ambient2 : rng_state) :
  (random_seed = None → ambient1 = ambient2) →
  shuffle d D_genes ambient1 tcrs chain organism depth random_seed
    return_presuffled return_errors
  = shuffle d D_genes ambient2 tcrs chain organism depth random_seed
      return_presuffled return_errors.
Proof.
  intros Hsame. destruct random_seed as [seed|].
  - unfold shuffle, start_generator. reflexivity.
  - by rewrite Hsame.
Qed.

Lemma C8_runs_agree_witness :
  shuffle (H:=lcg) sample_reference sample_D_genes 0%Z sample_tcrs (lit "B")
    (lit "human") 2 (Some 1%Z) false false
  = shuffle (H:=lcg) sample_reference sample_D_genes 5%Z sample_tcrs (lit "B")
      (lit "human") 2 (Some 1%Z) false false.
Proof.
  apply (C8_runs_agree (H:=lcg)). intros Hnone. discriminate Hnone.
Defined.

(** Without a seed ([random_seed=None]) the run carries on from the state
    the generator happens to be in: here two such runs cut the same
    receptor at different places. *)
Remark unseeded_runs_may_differ :
  (shuffle (H:=lcg) sample_reference sample_D_genes 0%Z sample_tcrs (lit "B")
     (lit "human") 1 None true false).1
  ≠ (shuffle (H:=lcg) sample_reference sample_D_genes 5%Z sample_tcrs (lit "B")
       (lit "human") 1 None true false).1.
Proof. vm_compute. discriminate. Qed.

Lemma C9_empty_batch_raises_witness :
  (shuffle (H:=lcg) sample_reference sample_D_genes 0%Z [] (lit "B")
     (lit "human") 2 (Some 1%Z) false true).1 = ZeroDivisionError.
Proof.
  apply (C9_empty_batch_raises (H:=lcg)). left. reflexivity.
Defined.

Lemma C10_error_ids_normalized_witness :
  let e := {| err_v := PyStr (lit "TRBV5-9*01"); err_cdr3 := PyStr (lit "CASS");
              err_j := PyStr (lit "TRBJ2-7*01");
              err_reason := missing_germline (lit "TRBV5-9*01") |} in
  ∃ v cdr3 j,
    (PyStr v, PyStr cdr3, PyStr j) ∈ sample_tcrs
    ∧ err_v e = PyStr (ensure_allele v)
    ∧ err_cdr3 e = PyStr cdr3
    ∧ err_j e = PyStr (ensure_allele j).
Proof.
  intros e.
  destruct (C10_error_ids_normalized (H:=lcg) sample_reference sample_D_genes
              0%Z sample_tcrs (lit "B") (lit "human") 1 (Some 1%Z) false
              (error_cdr3
                 (run_loop (H:=lcg) sample_reference sample_D_genes (lit "human") (lit "B")
                    (start_generator (H:=lcg) (Some 1%Z) 0%Z) sample_tcrs 1))
              e) as [_ Hnorm].
  - vm_compute. reflexivity.
  - vm_compute. right. left.
  - destruct Hnorm as (v & cdr3 & j & Hin & Hv & Hc & Hj & _); [discriminate|].
    by exists v, cdr3, j.
Defined.

(** The inverted draw seen from [shuffle]: a record that is processed
    without error, whose diagnostic row carries [cut1 = 2] and [cut2 = 0],
    and whose three fragments do not concatenate to its CDR3. *)
Example engine_inverted_cuts :
  let reference_A : reference :=
    {[ lit "human" :=
         {[ lit "A" := {[ lit "V" := {[ lit "TRAV1*01" := lit "CASSQ" ]};
                          lit "J" := {[ lit "TRAJ1*01" := lit "SYEQF" ]} ]} ]} ]} in
  ∃ row,
    (shuffle (H:=lcg) reference_A [] 0%Z
       [(PyStr (lit "TRAV1"), PyStr (lit "GYSGA"), PyStr (lit "TRAJ1"))]
       (lit "A") (lit "human") 1 (Some 1%Z) true false).1
    = PresuffledAnalysis [row]
    ∧ row_cut1 row = 2 ∧ row_cut2 row = 0
    ∧ row_v_part row ++ row_d_part row ++ row_j_part row = lit "GYSYSGA"
    ∧ row_cdr3 row = lit "GYSGA".
Proof. eexists. vm_compute. repeat split. Qed.

(** * Further properties *)

(** ** The labels, position by position *)

Lemma v_walk_lookup cdr3 i germ labels p :
  v_walk cdr3 i germ labels !! p
  = if decide (i <= p ∧ is_Some (cdr3 !! p) ∧ germ !! (p - i) = cdr3 !! p)
    then (λ _, "V"%char) <$> labels !! p
    else labels !! p.
Proof.
  revert i labels. induction germ as [|aa rest IH]; intros i labels; simpl.
  { rewrite decide_False; [done|]. intros (_ & [c Hc] & Heq).
    rewrite lookup_nil, Hc in Heq. done. }
  destruct (decide (length cdr3 <= i)) as [Hbrk|Hin].
  { rewrite decide_False; [done|]. intros (Hip & [c Hc] & _).
    apply lookup_lt_Some in Hc. lia. }
  rewrite IH.
  destruct (decide (p = i)) as [->|Hne].
  - rewrite (decide_False (P := S i <= i ∧ _)) by lia.
    replace (i - i) with 0 by lia. simpl.
    destruct (decide (cdr3 !! i = Some aa)) as [Haa|Haa].
    + rewrite decide_True.
      * destruct (decide (i < length labels)).
        -- rewrite list_lookup_insert_eq by done.
           destruct (lookup_lt_is_Some_2 labels i) as [c ->]; done.
        -- rewrite list_insert_ge by lia.
           by rewrite (lookup_ge_None_2 labels i) by lia.
      * split; [done|]. split; [by rewrite Haa|done].
    + rewrite decide_False; [done|]. intros (_ & _ & Heq). congruence.
  - assert (labels' : (if decide (cdr3 !! i = Some aa)
                       then <[i:="V"%char]> labels else labels) !! p
                      = labels !! p).
    { case_decide; [by rewrite list_lookup_insert_ne|done]. }
    rewrite labels'.
    destruct (decide (i <= p)) as [Hle|Hgt].
    + assert (p - i = S (p - S i)) as -> by lia. simpl.
      destruct (decide (S i <= p ∧ is_Some (cdr3 !! p)
                        ∧ rest !! (p - S i) = cdr3 !! p)) as [Hc|Hc].
      * rewrite decide_True; [done|]. destruct Hc as (? & ? & ?). done.
      * rewrite decide_False; [done|]. intros (? & ? & ?). apply Hc.
        split; [lia|done].
    + rewrite !decide_False; [done| |]; intros (? & _); lia.
Qed.

Lemma j_walk_lookup cdr3 j rgerm labels p :
  length labels = length cdr3 →
  j_walk cdr3 j rgerm labels !! p
  = if decide (p < length cdr3 ∧ j + p < length cdr3
               ∧ rgerm !! (length cdr3 - 1 - p - j) = cdr3 !! p
               ∧ labels !! p = Some "N"%char)
    then Some "J"%char
    else labels !! p.
Proof.
  revert j labels. induction rgerm as [|aa rest IH]; intros j labels Hlen; simpl.
  { rewrite decide_False; [done|]. intros (Hp & _ & Heq & _).
    rewrite lookup_nil in Heq. symmetry in Heq.
    apply lookup_ge_None_1 in Heq. lia. }
  destruct (decide (length cdr3 <= j)) as [Hbrk|Hin].
  { rewrite decide_False; [done|]. intros (? & ? & _). lia. }
  set (q := length cdr3 - (j + 1)).
  rewrite Hlen. fold q.
  set (labels' := if decide (cdr3 !! q = Some aa)
                  then if decide (labels !! q = Some "N"%char)
                       then <[q:="J"%char]> labels else labels
                  else labels).
  assert (length labels' = length cdr3) as Hlen'.
  { unfold labels'. repeat case_decide; rewrite ?length_insert; done. }
  rewrite (IH (S j) labels' Hlen').
  destruct (decide (p = q)) as [->|Hne].
  - rewrite (decide_False (P := q < length cdr3 ∧ S j + q < length cdr3 ∧ _))
      by (unfold q; lia).
    replace (length cdr3 - 1 - q - j) with 0 by (unfold q; lia). simpl.
    unfold labels'.
    destruct (decide (cdr3 !! q = Some aa)) as [Haa|Haa].
    + destruct (decide (labels !! q = Some "N"%char)) as [HN|HN].
      * rewrite list_lookup_insert_eq by (rewrite Hlen; unfold q; lia).
        rewrite decide_True; [done|]. unfold q. repeat split; try lia; done.
      * rewrite decide_False; [done|]. intros (_ & _ & _ & ?). done.
    + rewrite decide_False; [done|]. intros (_ & _ & Heq & _). congruence.
  - assert (labels' !! p = labels !! p) as Hsame.
    { unfold labels'. repeat case_decide; rewrite ?list_lookup_insert_ne; done. }
    rewrite Hsame.
    destruct (decide (p < length cdr3 ∧ j + p < length cdr3)) as [[Hp Hjp]|Hout].
    + assert (S j + p < length cdr3) by (unfold q in Hne; lia).
      assert ((aa :: rest) !! (length cdr3 - 1 - p - j)
              = rest !! (length cdr3 - 1 - p - S j)) as ->.
      { replace (length cdr3 - 1 - p - j)
          with (S (length cdr3 - 1 - p - S j)) by lia. done. }
      destruct (decide (p < length cdr3 ∧ S j + p < length cdr3
                        ∧ rest !! (length cdr3 - 1 - p - S j) = cdr3 !! p
                        ∧ labels !! p = Some "N"%char)) as [Hc|Hc].
      * rewrite decide_True; [done|]. destruct Hc as (? & ? & ? & ?).
        repeat split; try lia; done.
      * rewrite decide_False; [done|]. intros (? & ? & ? & ?). apply Hc.
        repeat split; try lia; done.
    + rewrite !decide_False; [done| |]; intros (? & ? & _); apply Hout; lia.
Qed.

(** X1: the label string of [label_cdr3_germline_vj_regions] has the length
    of the CDR3, and its letter at position [p] is decided by that position
    alone: [V] when the V germline has the CDR3's residue at [p]; otherwise
    [J] when the J germline, aligned at the right end, has it there;
    otherwise [N].  The early [break]s of the two walks change nothing. *)
Theorem label_by_position (cdr3 germline_v germline_j : str) (p : nat) :
  length (label_cdr3_germline_vj_regions cdr3 germline_v germline_j)
  = length cdr3
  ∧ label_cdr3_germline_vj_regions cdr3 germline_v germline_j !! p
    = (λ aa,
         if decide (germline_v !! p = Some aa) then "V"%char
         else if decide (reverse germline_j !! (length cdr3 - 1 - p) = Some aa)
              then "J"%char
              else "N"%char)
      <$> cdr3 !! p.
Proof.
  split; [apply label_length|].
  unfold label_cdr3_germline_vj_regions.
  rewrite j_walk_lookup by apply v_labels_length.
  unfold v_labels. rewrite v_walk_lookup.
  replace (p - 0) with p by lia. replace (length cdr3 - 1 - p - 0)
    with (length cdr3 - 1 - p) by lia.
  destruct (cdr3 !! p) as [aa|] eqn:Ep; simpl.
  2:{ apply lookup_ge_None_1 in Ep.
      rewrite decide_False by (intros (? & _); lia).
      apply lookup_replicate_None. lia. }
  pose proof (lookup_lt_Some _ _ _ Ep) as Hp.
  rewrite (lookup_replicate_2 _ _ _ Hp). simpl.
  destruct (decide (germline_v !! p = Some aa)) as [Hv|Hv].
  - rewrite (decide_True (P := 0 <= p ∧ _)) by (repeat split; [lia|by eexists|done]).
    rewrite decide_False; [done|]. intros (_ & _ & _ & ?). done.
  - rewrite (decide_False (P := 0 <= p ∧ _)) by (intros (_ & _ & ?); done).
    destruct (decide (reverse germline_j !! (length cdr3 - 1 - p) = Some aa)) as [Hj|Hj].
    + rewrite decide_True; [done|]. repeat split; try lia; done.
    + rewrite decide_False; [done|]. intros (_ & _ & ? & _). done.
Qed.

(** ** D matching: margins, short sequences, shared residues *)

Lemma lcs_size_nil (d_seq : str) : lcs_size [] d_seq = 0.
Proof. reflexivity. Qed.

Lemma clamp_nonneg (n : nat) (z : Z) :
  (0 <= z)%Z → Py.clamp n z = Nat.min (Z.to_nat z) n.
Proof.
  intros Hz. rewrite <- clamp_of_nat. f_equal. lia.
Qed.

Lemma core_of_length_eq (cdr3 : str) (min_v min_j : Z) :
  (0 <= min_v)%Z →
  length (core_of cdr3 min_v min_j)
  = Nat.min (Py.clamp (length cdr3) (Z.of_nat (length cdr3) - min_j)
             - Nat.min (Z.to_nat min_v) (length cdr3))
            (length cdr3 - Nat.min (Z.to_nat min_v) (length cdr3)).
Proof.
  intros Hv. unfold core_of, Py.slice. simpl.
  by rewrite (clamp_nonneg _ min_v Hv), length_take, length_drop.
Qed.

Lemma core_of_lookup (cdr3 : str) (min_v min_j : Z) (t : nat) :
  (0 <= min_v)%Z → t < length (core_of cdr3 min_v min_j) →
  core_of cdr3 min_v min_j !! t = cdr3 !! (Z.to_nat min_v + t).
Proof.
  intros Hv. rewrite core_of_length_eq by done. intros Ht.
  unfold core_of, Py.slice. simpl. rewrite (clamp_nonneg _ min_v Hv).
  rewrite lookup_take_lt by lia. rewrite lookup_drop. f_equal. lia.
Qed.

Lemma core_of_margin (cdr3 : str) (min_v min_j : Z) :
  (0 <= min_v)%Z → (0 <= min_j <= Z.of_nat (length cdr3))%Z →
  0 < length (core_of cdr3 min_v min_j) →
  Z.to_nat min_v + length (core_of cdr3 min_v min_j)
  <= length cdr3 - Z.to_nat min_j.
Proof.
  intros Hv Hj. rewrite core_of_length_eq by done.
  rewrite clamp_nonneg by lia. lia.
Qed.

Lemma core_of_empty (cdr3 : str) (min_v min_j : Z) :
  (0 <= min_v)%Z → (0 <= min_j)%Z →
  (min_j <= Z.of_nat (length cdr3) ∨ Z.of_nat (length cdr3) <= min_v)%Z →
  (Z.of_nat (length cdr3) <= min_v + min_j)%Z →
  core_of cdr3 min_v min_j = [].
Proof.
  intros Hv Hj Hside Hshort. apply nil_length_inv.
  rewrite core_of_length_eq by done.
  destruct Hside as [Hside|Hside]; [|lia].
  rewrite clamp_nonneg by lia. lia.
Qed.

(** X2: when the CDR3 is no longer than the two margins together
    ([len(cdr3) <= min_v + min_j], the slice bounds in range), the core
    [cdr3[min_v:len(cdr3)-min_j]] is empty and [best_d_alignment] returns
    its inputs with no D gene, whatever the candidates. *)
Theorem best_d_alignment_short_cdr3 (cdr3 cdr3_source : str)
    (d_segments : list (str * str)) (min_v min_j : Z) :
  (0 <= min_v)%Z → (0 <= min_j)%Z →
  (min_j <= Z.of_nat (length cdr3) ∨ Z.of_nat (length cdr3) <= min_v)%Z →
  (Z.of_nat (length cdr3) <= min_v + min_j)%Z →
  best_d_alignment cdr3 cdr3_source d_segments min_v min_j
  = (cdr3, cdr3_source, None).
Proof.
  intros Hv Hj Hside Hshort.
  destruct (best_d_alignment_cases cdr3 cdr3_source d_segments min_v min_j)
    as [[Heq _]|(pre & name & d_seq & post & _ & Hpos & _)]; [done|].
  rewrite core_of_empty, lcs_size_nil in Hpos by done. lia.
Qed.

Lemma best_d_alignment_short_cdr3_witness :
  best_d_alignment (lit "CASSEAF") (lit "VVVVJJJ")
    [(lit "TRBD1*01", lit "SSE")] 4 3
  = (lit "CASSEAF", lit "VVVVJJJ", None).
Proof.
  apply best_d_alignment_short_cdr3; simpl; lia.
Defined.

(** X3: [best_d_alignment] returns the CDR3 it was given and a label string
    of the same length, and it never relabels the first [min_v] or the last
    [min_j] positions. *)
Theorem best_d_alignment_keeps_margins (cdr3 cdr3_source : str)
    (d_segments : list (str * str)) (min_v min_j : Z) :
  (0 <= min_v)%Z → (0 <= min_j <= Z.of_nat (length cdr3))%Z →
  (best_d_alignment cdr3 cdr3_source d_segments min_v min_j).1.1 = cdr3
  ∧ length (best_d_alignment cdr3 cdr3_source d_segments min_v min_j).1.2
    = length cdr3_source
  ∧ ∀ p, p < Z.to_nat min_v ∨ length cdr3 - Z.to_nat min_j <= p →
         (best_d_alignment cdr3 cdr3_source d_segments min_v min_j).1.2 !! p
         = cdr3_source !! p.
Proof.
  intros Hv Hj.
  split; [apply best_d_alignment_cdr3|].
  split; [by apply best_d_alignment_length|].
  intros p Hp.
  destruct (best_d_alignment_cases cdr3 cdr3_source d_segments min_v min_j)
    as [[-> _]|(pre & name & d_seq & post & _ & Hpos & _ & _ & ->)]; [done|].
  cbn [fst snd].
  set (core := core_of cdr3 min_v min_j) in *.
  set (m := difflib.find_longest_match core d_seq) in *.
  pose proof (relabel_d_span cdr3_source min_v (difflib.match_a m)
                (lcs_size core d_seq) Hv) as [_ Hlook].
  rewrite Hlook. rewrite decide_False; [done|].
  pose proof (find_longest_match_sound core d_seq) as Hsound.
  pose proof (common_block_bound _ _ _ _ _ Hpos Hsound) as Hb.
  fold m in Hb.
  pose proof (core_of_margin cdr3 min_v min_j Hv Hj) as Hm. fold core in Hm.
  generalize dependent (lcs_size core d_seq). intros k _ Hpos Hb. lia.
Qed.

Lemma best_d_alignment_keeps_margins_witness :
  (best_d_alignment (lit "CASSSLAGGTEAFF") (lit "VVVVVVNNJJJJJJ")
     [(lit "TRBD1*01", lit "ASSSLAGGTEAF")] 4 3).1.2 !! 3
  = Some "V"%char.
Proof.
  destruct (best_d_alignment_keeps_margins (lit "CASSSLAGGTEAFF")
              (lit "VVVVVVNNJJJJJJ") [(lit "TRBD1*01", lit "ASSSLAGGTEAF")] 4 3)
    as (_ & _ & Hkeep).
  - lia.
  - simpl. lia.
  - rewrite Hkeep; [reflexivity|]. left. simpl. lia.
Defined.

Lemma shared_residue_block {A} (a b : list A) x :
  x ∈ a → x ∈ b → ∃ i j, common_block a b i j 1.
Proof.
  intros [i Hi]%list_elem_of_lookup_1 [j Hj]%list_elem_of_lookup_1.
  exists i, j. intros t Ht. replace t with 0 by lia.
  exists x. by rewrite !Nat.add_0_r.
Qed.

(** X4: for candidates shorter than 200 residues (where the matcher's
    popularity heuristic is off), [best_d_alignment] reports no D gene
    exactly when no candidate shares a single residue with the core. *)
Theorem best_d_alignment_none_iff (cdr3 cdr3_source : str)
    (d_segments : list (str * str)) (min_v min_j : Z) :
  (∀ item, item ∈ d_segments → length item.2 < 200) →
  (best_d_alignment cdr3 cdr3_source d_segments min_v min_j).2 = None
  ↔ ∀ item x, item ∈ d_segments →
              x ∈ core_of cdr3 min_v min_j → x ∈ item.2 → False.
Proof.
  intros Hshort.
  destruct (best_d_alignment_cases cdr3 cdr3_source d_segments min_v min_j)
    as [[-> Hzero]|(pre & name & d_seq & post & Hsplit & Hpos & _ & _ & ->)];
    simpl.
  - split; [|done]. intros _ item x Hitem Hx Hd.
    destruct (shared_residue_block _ _ x Hx Hd) as (i & j & Hblk).
    pose proof (find_longest_match_longest _ _ i j 1 (Hshort item Hitem) Hblk) as Hle.
    specialize (Hzero item Hitem). unfold lcs_size in Hzero. lia.
  - split; [done|]. intros Hnone. exfalso.
    destruct (common_block_shared _ _ _ _ _ Hpos
                (find_longest_match_sound (core_of cdr3 min_v min_j) d_seq))
      as (x & Hx & Hd).
    apply (Hnone (name, d_seq) x); [|done|done].
    rewrite Hsplit. apply elem_of_app. right. left.
Qed.

Lemma best_d_alignment_none_iff_witness :
  (best_d_alignment (lit "CASSSLAGGTEAFF") (lit "VVVVNNNNNNNJJJJ")
     [(lit "TRBD1*01", lit "QQQ")] 4 3).2 = None
  ↔ ∀ item x, item ∈ [(lit "TRBD1*01", lit "QQQ")] →
              x ∈ core_of (lit "CASSSLAGGTEAFF") 4 3 → x ∈ item.2 → False.
Proof.
  apply best_d_alignment_none_iff.
  intros item Hitem. apply list_elem_of_singleton in Hitem as ->.
  simpl. lia.
Defined.

(** X5: when [best_d_alignment] reports the D sequence [d_seq], the label
    string it returns is the input with one non-empty span set to [D]; the
    span starts at or after [min_v], and on it the CDR3 spells a contiguous
    block of [d_seq]. *)
Theorem best_d_alignment_span_spells_d (cdr3 cdr3_source : str)
    (d_segments : list (str * str)) (min_v min_j : Z) (d_seq : str) :
  (0 <= min_v)%Z →
  (best_d_alignment cdr3 cdr3_source d_segments min_v min_j).2 = Some d_seq →
  ∃ start b size,
    0 < size ∧ Z.to_nat min_v <= start
    ∧ common_block cdr3 d_seq start b size
    ∧ ∀ p, (best_d_alignment cdr3 cdr3_source d_segments min_v min_j).1.2 !! p
           = if decide (start <= p ∧ p < start + size)
             then (λ _, "D"%char) <$> cdr3_source !! p
             else cdr3_source !! p.
Proof.
  intros Hv Hsome.
  destruct (best_d_alignment_cases cdr3 cdr3_source d_segments min_v min_j)
    as [[Heq _]|(pre & name & d_seq' & post & _ & Hpos & _ & _ & Heq)];
    rewrite Heq in Hsome |- *; cbn [fst snd] in Hsome |- *; [done|].
  injection Hsome as ->.
  set (core := core_of cdr3 min_v min_j) in *.
  set (m := difflib.find_longest_match core d_seq) in *.
  pose proof (find_longest_match_sound core d_seq) as Hsound.
  unfold best_ok in Hsound. fold m in Hsound.
  pose proof (common_block_bound _ _ _ _ _ Hpos Hsound) as Hb. fold m in Hb.
  exists (Z.to_nat min_v + difflib.match_a m), (difflib.match_b m),
         (lcs_size core d_seq).
  split; [done|]. split; [lia|]. split.
  - intros t Ht. destruct (Hsound t Ht) as (x & Ha & Hd).
    exists x. split; [|done].
    rewrite <- Ha. unfold core. rewrite core_of_lookup; [f_equal; lia|done|].
    fold core. unfold lcs_size in Hb, Ht. fold m in Hb, Ht. lia.
  - apply relabel_d_span. done.
Qed.

Lemma best_d_alignment_span_spells_d_witness :
  ∃ start b size,
    0 < size ∧ common_block (lit "CASSSLAGGTEAFF") (lit "GLAGG") start b size.
Proof.
  destruct (best_d_alignment_span_spells_d (lit "CASSSLAGGTEAFF")
              (lit "VVVVNNNNNNNJJJJ")
              [(lit "TRBD1*01", lit "GGGAC"); (lit "TRBD2*01", lit "GLAGG")]
              4 3 (lit "GLAGG"))
    as (start & b & size & Hpos & _ & Hblk & _).
  - lia.
  - vm_compute. reflexivity.
  - by exists start, b, size.
Defined.

(** Membership of a constant in an explicit list. *)
Ltac in_list := repeat first [ by left | right ].

(** X6: the labels before D matching use only [V], [N] and [J]; after
    [best_d_alignment] with the default margins the label string still has
    the length of the CDR3 and uses only [V], [N], [D] and [J]. *)
Theorem pipeline_labels_alphabet (cdr3 germline_v germline_j : str)
    (d_segments : list (str * str)) :
  let labels_vj := label_cdr3_germline_vj_regions cdr3 germline_v germline_j in
  let labels := (best_d_alignment cdr3 labels_vj d_segments 4 3).1.2 in
  Forall (λ c, c ∈ [ "V"; "N"; "J" ]%char) labels_vj
  ∧ length labels = length cdr3
  ∧ Forall (λ c, c ∈ [ "V"; "N"; "D"; "J" ]%char) labels.
Proof.
  cbv zeta.
  assert (Forall (λ c, c ∈ [ "V"; "N"; "J" ]%char)
            (label_cdr3_germline_vj_regions cdr3 germline_v germline_j)) as Hvj.
  { apply Forall_lookup. intros p c Hc.
    apply label_alphabet in Hc as [-> | [-> | ->]]; in_list. }
  split; [done|]. split.
  { rewrite best_d_alignment_length by lia. apply label_length. }
  apply Forall_lookup. intros p c Hc.
  destruct (best_d_alignment_cases cdr3
              (label_cdr3_germline_vj_regions cdr3 germline_v germline_j)
              d_segments 4 3)
    as [[Heq _]|(pre & name & d_seq & post & _ & _ & _ & _ & Heq)];
    rewrite Heq in Hc; simpl in Hc.
  - apply label_alphabet in Hc as [-> | [-> | ->]]; in_list.
  - pose proof (relabel_d_span
                  (label_cdr3_germline_vj_regions cdr3 germline_v germline_j) 4
                  (difflib.match_a
                     (difflib.find_longest_match (core_of cdr3 4 3) d_seq))
                  (lcs_size (core_of cdr3 4 3) d_seq)) as [_ Hlook]; [lia|].
    rewrite Hlook in Hc. case_decide.
    + apply fmap_Some in Hc as (? & _ & ->). in_list.
    + apply label_alphabet in Hc as [-> | [-> | ->]]; in_list.
Qed.

(** ** Cutpoint selection: bounds, short strings, the generator *)

Lemma valid_cutpoints_spec (label_string : str) i :
  i ∈ valid_cutpoints label_string
  ↔ ∃ a b, label_string !! i = Some a ∧ label_string !! (i + 1) = Some b
           ∧ (a, b) ∈ valid_transitions.
Proof.
  unfold valid_cutpoints.
  rewrite list_elem_of_filter, range_elem, transition_in_spec.
  split; [by intros [? _]|]. intros (a & b & Ha & Hb & Hin).
  split; [by exists a, b|]. apply lookup_lt_Some in Hb. lia.
Qed.

(** X7: [choose_valid_cutpoint] returns [None], drawing nothing from the
    generator, exactly when the label string has no adjacent pair among
    [V|N], [N|D], [D|N], [D|J]; an index it returns is the left position of
    such a pair, so it is below [len(label_string) - 1]. *)
Theorem choose_valid_cutpoint_spec `{RandomGen} (label_string : str)
    (g : rng_state) :
  ((choose_valid_cutpoint label_string g).1 = None
   ↔ ∀ i a b, label_string !! i = Some a → label_string !! (i + 1) = Some b →
              (a, b) ∈ [("V", "N"); ("N", "D"); ("D", "N"); ("D", "J")]%char →
              False)
  ∧ ((choose_valid_cutpoint label_string g).1 = None →
     (choose_valid_cutpoint label_string g).2 = g)
  ∧ ∀ i, (choose_valid_cutpoint label_string g).1 = Some i →
         i + 1 < length label_string
         ∧ ∃ a b, label_string !! i = Some a
                  ∧ label_string !! (i + 1) = Some b
                  ∧ (a, b) ∈ [("V", "N"); ("N", "D"); ("D", "N"); ("D", "J")]%char.
Proof.
  unfold choose_valid_cutpoint.
  destruct (valid_cutpoints label_string) as [|c cs] eqn:E.
  - simpl. split; [|split; [done|done]]. split; [|done].
    intros _ i a b Ha Hb Hin.
    assert (i ∈ valid_cutpoints label_string) as Hi
      by (apply valid_cutpoints_spec; by exists a, b).
    rewrite E in Hi. by apply elem_of_nil in Hi.
  - pose proof (choice_elem (c :: cs) g) as Hin.
    destruct (Random.choice (c :: cs) g) as [i g']. simpl in *.
    specialize (Hin ltac:(done)). rewrite <- E in Hin.
    apply valid_cutpoints_spec in Hin as (a & b & Ha & Hb & Hab).
    split; [|split; [done|]].
    + split; [done|]. intros Hnone. exfalso. by apply (Hnone i a b).
    + intros i' [= <-]. split; [|by exists a, b].
      apply lookup_lt_Some in Hb. lia.
Qed.

(** X8: [choose_cutpoints_around_d] leaves the generator untouched when it
    returns [None]; it returns [None] on every label string shorter than 3;
    and a pair it returns satisfies [1 <= cut1 <= len - 2] and
    [cut2 <= len - 3], so that the V fragment has [cut1 + 1] residues, the J
    fragment [len - cut2 - 1] and the D fragment [cut2 - cut1] (none when
    the cuts are inverted). *)
Theorem choose_cutpoints_bounds `{RandomGen} (label_string : str)
    (g : rng_state) :
  ((choose_cutpoints_around_d label_string g).1 = None →
   (choose_cutpoints_around_d label_string g).2 = g)
  ∧ (length label_string < 3 →
     (choose_cutpoints_around_d label_string g).1 = None)
  ∧ ∀ cut1 cut2 (cdr3 : str),
      (choose_cutpoints_around_d label_string g).1 = Some (cut1, cut2) →
      length cdr3 = length label_string →
      (1 <= cut1 ∧ cut1 + 2 <= length cdr3 ∧ cut2 + 3 <= length cdr3)
      ∧ length (v_part_of cdr3 cut1) = cut1 + 1
      ∧ length (j_part_of cdr3 cut2) = length cdr3 - (cut2 + 1)
      ∧ length (d_part_of cdr3 cut1 cut2) = cut2 - cut1.
Proof.
  split; [|split].
  - unfold choose_cutpoints_around_d.
    destruct (cuts_before label_string) as [|b bs],
             (cuts_after label_string) as [|a az]; simpl; try done.
    destruct (Random.choice (b :: bs) g) as [c1 g1].
    destruct (Random.choice (a :: az) g1) as [c2 g2]. done.
  - intros Hshort. apply choose_cutpoints_none. right.
    apply elem_of_nil_inv. intros i Hi.
    apply cuts_after_spec in Hi as [Hi _]. lia.
  - intros cut1 cut2 cdr3 Hsel Hlen.
    apply choose_cutpoints_some in Hsel as [Hb Ha].
    apply cuts_before_spec in Hb as [[H1 H2] _].
    apply cuts_after_spec in Ha as [H3 _].
    unfold v_part_of, j_part_of, d_part_of.
    rewrite !succ_of_nat, slice_upto, slice_from, slice_between.
    rewrite !length_take, !length_drop. lia.
Qed.

(** ** [center_pad] *)

Lemma repeat_list_length {A} (s : list A) (k : Z) :
  length (Py.repeat_list s k) = Z.to_nat k * length s.
Proof.
  unfold Py.repeat_list. induction (Z.to_nat k) as [|n IH]; simpl; [done|].
  rewrite length_app, IH. lia.
Qed.

Lemma repeat_list_elem {A} (s : list A) (k : Z) x :
  x ∈ Py.repeat_list s k → x ∈ s.
Proof. apply repeat_list_subseteq. Qed.

(** X9: the length of [center_pad]'s result is the two germline lengths
    plus [len(fill_char)] for each missing position; with a one-character
    fill it is [max(total_length, len(germline_v) + len(germline_j))]. *)
Theorem center_pad_length (germline_v germline_j : str) (total_length : Z)
    (fill_char : str) (c : ascii) :
  Z.of_nat (length (center_pad germline_v germline_j total_length fill_char))
  = (Z.of_nat (length germline_v) + Z.of_nat (length germline_j)
     + Z.of_nat (length fill_char)
       * Z.max 0 (total_length - Z.of_nat (length germline_v)
                  - Z.of_nat (length germline_j)))%Z
  ∧ Z.of_nat (length (center_pad germline_v germline_j total_length [c]))
    = Z.max total_length
            (Z.of_nat (length germline_v) + Z.of_nat (length germline_j)).
Proof.
  assert (∀ fill,
    Z.of_nat (length (center_pad germline_v germline_j total_length fill))
    = (Z.of_nat (length germline_v) + Z.of_nat (length germline_j)
       + Z.of_nat (length fill)
         * Z.max 0 (total_length - Z.of_nat (length germline_v)
                    - Z.of_nat (length germline_j)))%Z) as Hgen.
  { intros fill. unfold center_pad. cbv zeta.
    destruct (decide (total_length < _)%Z) as [Hlong|Hfit].
    - rewrite length_app. lia.
    - destruct (decide (0 < _)%Z) as [Hpos|Hzero].
      + rewrite !length_app, repeat_list_length. nia.
      + rewrite !length_app. simpl. nia. }
  split; [apply Hgen|]. rewrite Hgen. simpl length. lia.
Qed.

(** X10: [center_pad] returns [germline_v], then a middle made only of
    characters of [fill_char], then [germline_j]; the middle is empty when
    the two germlines already reach [total_length]. *)
Theorem center_pad_shape (germline_v germline_j : str) (total_length : Z)
    (fill_char : str) :
  ∃ middle,
    center_pad germline_v germline_j total_length fill_char
    = germline_v ++ middle ++ germline_j
    ∧ Forall (λ c, c ∈ fill_char) middle
    ∧ ((total_length
        <= Z.of_nat (length germline_v) + Z.of_nat (length germline_j))%Z →
       middle = []).
Proof.
  unfold center_pad. cbv zeta.
  destruct (decide (total_length < _)%Z) as [Hlong|Hfit].
  - exists []. by repeat split.
  - destruct (decide (0 < _)%Z) as [Hpos|Hzero].
    + eexists. split; [done|]. split.
      * apply Forall_forall. intros c. apply repeat_list_elem.
      * intros Hle. lia.
    + exists []. by repeat split.
Qed.

(** ** The loop body, seen through what it settles before drawing *)

Section prepare_facts.
Context `{RandomGen}.
Variables (d : reference) (D_genes : list (str * str)) (organism chain : str).

Lemma process_record_failed st r e :
  prepare d D_genes organism chain r = inl e →
  process_record d D_genes organism chain st r
  = {| store_v := store_v st; store_d := store_d st; store_j := store_j st;
       error_cdr3 := error_cdr3 st ++ [e];
       presuffled_receptors := presuffled_receptors st;
       gen := gen st |}.
Proof.
  unfold prepare, process_record.
  destruct r as [[v cdr3] j].
  destruct v as [v| | |]; try by intros [= <-].
  destruct cdr3 as [cdr3| | |]; try by intros [= <-].
  destruct j as [j| | |]; try by intros [= <-].
  destruct (germline_lookup d organism chain (lit "V") (ensure_allele v))
    as [germline_v|k]; [|by intros [= <-]].
  destruct (germline_lookup d organism chain (lit "J") (ensure_allele j))
    as [germline_j|k]; [|by intros [= <-]].
  destruct (if decide (chain = lit "B") then _ else _) as [[cdr3' src] d_gene].
  unfold choose_cutpoints_around_d.
  destruct (cuts_before src) as [|b bs]; [by intros [= <-]|].
  destruct (cuts_after src) as [|a az]; [by intros [= <-]|].
  done.
Qed.

Lemma process_record_prepared st r p :
  prepare d D_genes organism chain r = inr p →
  ∃ cut1 cut2 g,
    choose_cutpoints_around_d (p_cdr3_source p) (gen st) = (Some (cut1, cut2), g)
    ∧ process_record d D_genes organism chain st r
      = {| store_v := store_v st ++ [(p_v p, v_part_of (p_cdr3 p) cut1)];
           store_d := store_d st
                      ++ [(p_d_gene p, d_part_of (p_cdr3 p) cut1 cut2)];
           store_j := store_j st ++ [(p_j p, j_part_of (p_cdr3 p) cut2)];
           error_cdr3 := error_cdr3 st;
           presuffled_receptors :=
             presuffled_receptors st ++ [row_of p cut1 cut2];
           gen := g |}.
Proof.
  unfold prepare, process_record.
  destruct r as [[v cdr3] j].
  destruct v as [v| | |]; try done.
  destruct cdr3 as [cdr3| | |]; try done.
  destruct j as [j| | |]; try done.
  destruct (germline_lookup d organism chain (lit "V") (ensure_allele v))
    as [germline_v|k]; [|done].
  destruct (germline_lookup d organism chain (lit "J") (ensure_allele j))
    as [germline_j|k]; [|done].
  destruct (if decide (chain = lit "B") then _ else _) as [[cdr3' src] d_gene].
  unfold choose_cutpoints_around_d.
  destruct (cuts_before src) as [|b bs] eqn:Eb; [done|].
  destruct (cuts_after src) as [|a az] eqn:Ea; [done|].
  intros [= <-]. simpl. rewrite Eb, Ea.
  destruct (Random.choice (b :: bs) (gen st)) as [c1 g1].
  destruct (Random.choice (a :: az) g1) as [c2 g2].
  by exists c1, c2, g2.
Qed.

End prepare_facts.

Section loop_facts.
Context `{RandomGen}.
Variables (d : reference) (D_genes : list (str * str)) (organism chain : str).

Local Abbreviation body := (process_record d D_genes organism chain).
Local Abbreviation fails := (error_of d D_genes organism chain).

Lemma foldl_error_list l st :
  error_cdr3 (foldl body st l) = error_cdr3 st ++ omap fails l.
Proof.
  revert st. induction l as [|r l IH]; intros st; simpl.
  { by rewrite app_nil_r. }
  rewrite IH. unfold error_of.
  destruct (prepare d D_genes organism chain r) as [e|p] eqn:E.
  - rewrite (process_record_failed _ _ _ _ _ _ _ E). simpl.
    by rewrite <- app_assoc.
  - destruct (process_record_prepared _ _ _ _ st _ _ E)
      as (c1 & c2 & g & _ & ->). done.
Qed.

Lemma foldl_skips_failures l st st' :
  same_pools st st' →
  same_pools (foldl body st l)
             (foldl body st' (filter (λ r, fails r = None) l)).
Proof.
  revert st st'. induction l as [|r l IH]; intros st st' Hsame; [done|].
  unfold error_of at 2. simpl.
  destruct (prepare d D_genes organism chain r) as [e|p] eqn:E.
  - rewrite filter_cons_False by (unfold error_of; by rewrite E).
    apply IH. rewrite (process_record_failed _ _ _ _ _ _ _ E).
    destruct Hsame as (? & ? & ? & ? & ?). by repeat split.
  - rewrite filter_cons_True by (unfold error_of; by rewrite E).
    simpl. apply IH.
    destruct Hsame as (Hv & Hd & Hj & Hp & Hg).
    destruct (process_record_prepared _ _ _ _ st _ _ E)
      as (c1 & c2 & g & Hc & ->).
    destruct (process_record_prepared _ _ _ _ st' _ _ E)
      as (c1' & c2' & g' & Hc' & ->).
    rewrite Hg, Hc' in Hc. injection Hc as -> -> ->.
    repeat split; simpl; congruence.
Qed.

Lemma foldl_row_origin l st row :
  row ∈ presuffled_receptors (foldl body st l) →
  row ∈ presuffled_receptors st
  ∨ ∃ r p cut1 cut2,
      r ∈ l ∧ prepare d D_genes organism chain r = inr p
      ∧ row = row_of p cut1 cut2
      ∧ cut1 ∈ cuts_before (p_cdr3_source p)
      ∧ cut2 ∈ cuts_after (p_cdr3_source p).
Proof.
  revert st. induction l as [|r l IH]; intros st Hrow; simpl in *; [by left|].
  apply IH in Hrow as [Hrow|(r' & p & c1 & c2 & Hr' & Hrest)].
  2:{ right. exists r', p, c1, c2. split; [by right|done]. }
  destruct (prepare d D_genes organism chain r) as [e|p] eqn:E.
  - rewrite (process_record_failed _ _ _ _ _ _ _ E) in Hrow. by left.
  - destruct (process_record_prepared _ _ _ _ st _ _ E)
      as (c1 & c2 & g & Hc & Heq).
    rewrite Heq in Hrow. simpl in Hrow.
    apply elem_of_app in Hrow as [Hrow|Hrow]; [by left|].
    apply list_elem_of_singleton in Hrow as ->.
    right. exists r, p, c1, c2.
    destruct (choose_cutpoints_some (p_cdr3_source p) (gen st) c1 c2)
      as [Hb Ha]; [by rewrite Hc|].
    split; [left|done].
Qed.

Lemma foldl_pools_of_rows l st :
  pools_of_rows st → pools_of_rows (foldl body st l).
Proof.
  revert st. induction l as [|r l IH]; intros st Hst; [done|].
  simpl. apply IH.
  destruct (prepare d D_genes organism chain r) as [e|p] eqn:E.
  - by rewrite (process_record_failed _ _ _ _ _ _ _ E).
  - destruct (process_record_prepared _ _ _ _ st _ _ E)
      as (c1 & c2 & g & _ & ->).
    destruct Hst as (Hv & Hj & Hd).
    unfold pools_of_rows. simpl. rewrite !fmap_app, Hv, Hj, Hd. done.
Qed.

End loop_facts.

Lemma repeat_list_omap {A B} (f : A → option B) (s : list A) (k : Z) :
  omap f (Py.repeat_list s k) = Py.repeat_list (omap f s) k.
Proof.
  unfold Py.repeat_list. induction (Z.to_nat k) as [|n IH]; simpl; [done|].
  by rewrite omap_app, IH.
Qed.

Lemma repeat_list_filter {A} (P : A → Prop) `{∀ x, Decision (P x)}
    (s : list A) (k : Z) :
  filter P (Py.repeat_list s k) = Py.repeat_list (filter P s) k.
Proof.
  unfold Py.repeat_list. induction (Z.to_nat k) as [|n IH]; simpl; [done|].
  by rewrite filter_app, IH.
Qed.

Lemma repeat_list_one {A} (s : list A) : Py.repeat_list s 1 = s.
Proof. unfold Py.repeat_list. simpl. apply app_nil_r. Qed.

Lemma run_loop_error_list `{RandomGen} d D_genes organism chain g tcrs depth :
  error_cdr3 (run_loop d D_genes organism chain g tcrs depth)
  = Py.repeat_list (omap (error_of d D_genes organism chain) tcrs) depth.
Proof.
  unfold run_loop. rewrite foldl_error_list. simpl.
  apply repeat_list_omap.
Qed.

(** ** The engine: errors, pools and output rows *)

Lemma new_junctions_columns sv sd sj :
  length sd = length sv → length sj = length sv →
  (λ r, (new_v r, (components r).1.1)) <$> new_junctions sv sd sj = sv
  ∧ (λ r, (new_j r, (components r).2)) <$> new_junctions sv sd sj = sj
  ∧ (λ r, (components r).1.2) <$> new_junctions sv sd sj = sd.*2
  ∧ Forall (λ r, new_cdr3 r
                 = (components r).1.1 ++ (components r).1.2 ++ (components r).2)
           (new_junctions sv sd sj).
Proof.
  revert sd sj. induction sv as [|[V n] sv IH]; intros sd sj Hd Hj.
  { destruct sd; [|done]. destruct sj; [|done]. by repeat split. }
  destruct sd as [|[D dseg] sd]; [done|]. destruct sj as [|[J c] sj]; [done|].
  simpl in Hd, Hj.
  destruct (IH sd sj) as (Hv & Hj' & Hd' & Hall); [lia|lia|].
  split; [|split; [|split]].
  - simpl. f_equal. exact Hv.
  - simpl. f_equal. exact Hj'.
  - simpl. f_equal. exact Hd'.
  - simpl. constructor; [done|exact Hall].
Qed.

Section engine_extras.
Context `{RandomGen}.
Variables (d : reference) (D_genes : list (str * str)).
Variables (tcrs : list receptor) (chain organism : str) (depth : Z).

(** X11: with [return_errors] set, the result of [shuffle] depends neither
    on the state of the generator, nor on the seed, nor on
    [return_presuffled]. *)
Theorem error_list_ignores_generator (ambient1 ambient2 : rng_state)
    (seed1 seed2 : option Z) (return_presuffled1 return_presuffled2 : bool) :
  (shuffle d D_genes ambient1 tcrs chain organism depth seed1
     return_presuffled1 true).1
  = (shuffle d D_genes ambient2 tcrs chain organism depth seed2
       return_presuffled2 true).1.
Proof.
  unfold shuffle. case_decide; [done|]. simpl.
  by rewrite !run_loop_error_list.
Qed.

(** X12: on a non-empty batch and a depth other than 0, the error list at
    depth [depth] is the error list at depth 1 repeated [depth] times. *)
Theorem error_list_scales_with_depth (ambient : rng_state)
    (random_seed : option Z) (return_presuffled : bool) :
  tcrs ≠ [] → depth ≠ 0%Z →
  ∃ once,
    (shuffle d D_genes ambient tcrs chain organism 1 random_seed
       return_presuffled true).1 = ErrorList once
    ∧ (shuffle d D_genes ambient tcrs chain organism depth random_seed
         return_presuffled true).1 = ErrorList (Py.repeat_list once depth)
    ∧ length (Py.repeat_list once depth) = Z.to_nat depth * length once.
Proof.
  intros Hne Hd.
  assert (0 < length tcrs) by (destruct tcrs; [done|simpl; lia]).
  exists (omap (error_of d D_genes organism chain) tcrs).
  unfold shuffle. rewrite !decide_False by lia. simpl.
  rewrite !run_loop_error_list, repeat_list_one.
  repeat split. apply repeat_list_length.
Qed.

(** X13: records that end in the error list leave no trace in the pools,
    the diagnostic rows or the generator: the loop over the batch reaches
    the same pools, rows and generator state as the loop over the batch
    without its failing records. *)
Theorem failing_records_leave_pools (g : rng_state) :
  same_pools
    (run_loop d D_genes organism chain g tcrs depth)
    (run_loop d D_genes organism chain g
       (filter (λ r, error_of d D_genes organism chain r = None) tcrs) depth).
Proof.
  unfold run_loop. rewrite <- repeat_list_filter.
  apply foldl_skips_failures. by repeat split.
Qed.

(** X14: with a negative depth on a non-empty batch the loop runs over
    nothing and the division does not fail: [shuffle] returns an empty
    error list, an empty diagnostic table or an empty shuffled batch. *)
Theorem negative_depth_returns_empty (ambient : rng_state)
    (random_seed : option Z) :
  tcrs ≠ [] → (depth < 0)%Z →
  (∀ return_presuffled,
     (shuffle d D_genes ambient tcrs chain organism depth random_seed
        return_presuffled true).1 = ErrorList [])
  ∧ (shuffle d D_genes ambient tcrs chain organism depth random_seed
       true false).1 = PresuffledAnalysis []
  ∧ (shuffle d D_genes ambient tcrs chain organism depth random_seed
       false false).1 = ShuffledBatch [].
Proof.
  intros Hne Hd.
  assert (0 < length tcrs) by (destruct tcrs; [done|simpl; lia]).
  assert (Py.repeat_list tcrs depth = []) as Hrep.
  { unfold Py.repeat_list. by replace (Z.to_nat depth) with 0 by lia. }
  unfold shuffle, run_loop. rewrite !decide_False by lia.
  rewrite Hrep. by repeat split.
Qed.

(** X15: after the loop the V and J pools are the [(v, v_part)] and
    [(j, j_part)] columns of the diagnostic rows, in row order, and the
    fragments of the D pool are their [d_part] column. *)
Theorem pools_are_row_columns (g : rng_state) :
  pools_of_rows (run_loop d D_genes organism chain g tcrs depth).
Proof.
  unfold run_loop. apply foldl_pools_of_rows. by repeat split.
Qed.

Lemma default_mode_rows (ambient : rng_state) (random_seed : option Z) :
  (Z.of_nat (length tcrs) * depth ≠ 0)%Z →
  ∃ sv sd sj,
    (shuffle d D_genes ambient tcrs chain organism depth random_seed
       false false).1 = ShuffledBatch (new_junctions sv sd sj)
    ∧ sv ≡ₚ store_v (loop_state d D_genes organism chain random_seed ambient
                       tcrs depth)
    ∧ sd ≡ₚ store_d (loop_state d D_genes organism chain random_seed ambient
                       tcrs depth)
    ∧ sj ≡ₚ store_j (loop_state d D_genes organism chain random_seed ambient
                       tcrs depth)
    ∧ length sd = length sv ∧ length sj = length sv.
Proof.
  intros Hz.
  set (st := loop_state d D_genes organism chain random_seed ambient tcrs depth).
  pose proof (run_loop_counts d D_genes organism chain
                (start_generator random_seed ambient) tcrs depth)
    as (Hd & Hj & _ & _).
  fold (loop_state d D_genes organism chain random_seed ambient tcrs depth)
    in Hd, Hj. fold st in Hd, Hj.
  pose proof (shuffle_Permutation (store_v st) (gen st)) as Pv.
  destruct (Random.shuffle (store_v st) (gen st)) as [sv g1] eqn:Ev.
  pose proof (shuffle_Permutation (store_d st) g1) as Pd.
  destruct (Random.shuffle (store_d st) g1) as [sd g2] eqn:Ed.
  pose proof (shuffle_Permutation (store_j st) g2) as Pj.
  destruct (Random.shuffle (store_j st) g2) as [sj g3] eqn:Ej.
  simpl in Pv, Pd, Pj.
  exists sv, sd, sj. split; [|split; [done|split; [done|split; [done|]]]].
  - unfold shuffle. rewrite decide_False by done.
    fold (loop_state d D_genes organism chain random_seed ambient tcrs depth).
    fold st. cbv zeta. by rewrite Ev, Ed, Ej.
  - rewrite (Permutation_length Pd), (Permutation_length Pj),
      (Permutation_length Pv). done.
Qed.

(** X16: in default mode [shuffle] either fails on the division (the
    batch is empty or the depth 0) or returns rows in which every V gene
    is still paired with its own V fragment and every J gene with its own
    J fragment: the [(v, n)] pairs of the rows are a permutation of the V
    pool, the [(j, c)] pairs one of the J pool, the D fragments one of the
    D pool's, and each new CDR3 is [n + dseg + c]. *)
Theorem shuffled_rows_keep_gene_with_fragment (ambient : rng_state)
    (random_seed : option Z) :
  let st := loop_state d D_genes organism chain random_seed ambient tcrs depth in
  match (shuffle d D_genes ambient tcrs chain organism depth random_seed
           false false).1 with
  | ShuffledBatch rows =>
      (λ r, (new_v r, (components r).1.1)) <$> rows ≡ₚ store_v st
      ∧ (λ r, (new_j r, (components r).2)) <$> rows ≡ₚ store_j st
      ∧ (λ r, (components r).1.2) <$> rows ≡ₚ (store_d st).*2
      ∧ Forall (λ r, new_cdr3 r
                     = (components r).1.1 ++ (components r).1.2
                       ++ (components r).2) rows
  | ZeroDivisionError => (Z.of_nat (length tcrs) * depth = 0)%Z
  | _ => False
  end.
Proof.
  cbv zeta.
  destruct (decide (Z.of_nat (length tcrs) * depth = 0)%Z) as [Hz|Hz].
  { unfold shuffle. by rewrite decide_True. }
  destruct (default_mode_rows ambient random_seed Hz)
    as (sv & sd & sj & -> & Pv & Pd & Pj & Hd & Hj).
  destruct (new_junctions_columns sv sd sj Hd Hj) as (-> & -> & -> & Hall).
  repeat split; try done. by rewrite Pd.
Qed.

Lemma row_ok_sizes row :
  row_ok row →
  2 <= length (row_v_part row) ∧ 2 <= length (row_j_part row).
Proof.
  intros (Hlen & Hb & Ha & -> & _ & ->).
  apply cuts_before_spec in Hb as [[H1 H2] _].
  apply cuts_after_spec in Ha as [H3 _].
  unfold v_part_of, j_part_of.
  rewrite !succ_of_nat, slice_upto, slice_from, length_take, length_drop. lia.
Qed.

(** X17: every V fragment and every J fragment has at least two
    residues, in the diagnostic rows and in the shuffled rows, so every
    shuffled CDR3 has at least four. *)
Theorem fragments_have_two_residues (ambient : rng_state)
    (random_seed : option Z) :
  let st := loop_state d D_genes organism chain random_seed ambient tcrs depth in
  Forall (λ row, 2 <= length (row_v_part row) ∧ 2 <= length (row_j_part row))
         (presuffled_receptors st)
  ∧ match (shuffle d D_genes ambient tcrs chain organism depth random_seed
             false false).1 with
    | ShuffledBatch rows =>
        Forall (λ r, 2 <= length (components r).1.1
                     ∧ 2 <= length (components r).2
                     ∧ 4 <= length (new_cdr3 r)) rows
    | ZeroDivisionError => (Z.of_nat (length tcrs) * depth = 0)%Z
    | _ => False
    end.
Proof.
  cbv zeta.
  set (st := loop_state d D_genes organism chain random_seed ambient tcrs depth).
  assert (Forall (λ row, 2 <= length (row_v_part row)
                         ∧ 2 <= length (row_j_part row))
            (presuffled_receptors st)) as Hrows.
  { apply Forall_forall. intros row Hrow. apply row_ok_sizes.
    by apply run_loop_rows in Hrow. }
  split; [done|].
  destruct (decide (Z.of_nat (length tcrs) * depth = 0)%Z) as [Hz|Hz].
  { unfold shuffle. by rewrite decide_True. }
  assert (pools_of_rows st) as (Hv & Hj & _).
  { unfold st, loop_state, run_loop. apply foldl_pools_of_rows. by repeat split. }
  destruct (default_mode_rows ambient random_seed Hz)
    as (sv & sd & sj & -> & Pv & Pd & Pj & Hd & Hj').
  fold st in Pv, Pj.
  destruct (new_junctions_columns sv sd sj Hd Hj') as (Hcv & Hcj & _ & Hall).
  apply Forall_forall. intros r Hr.
  assert (2 <= length (components r).1.1) as H1.
  { assert ((new_v r, (components r).1.1) ∈ store_v st) as Hin.
    { rewrite <- Pv, <- Hcv.
      by apply (list_elem_of_fmap_2 (λ r, (new_v r, (components r).1.1))). }
    rewrite Hv in Hin. apply list_elem_of_fmap in Hin as (row & [= _ ->] & Hrow).
    by apply (proj1 (Forall_forall _ _) Hrows) in Hrow as [? _]. }
  assert (2 <= length (components r).2) as H2.
  { assert ((new_j r, (components r).2) ∈ store_j st) as Hin.
    { rewrite <- Pj, <- Hcj.
      by apply (list_elem_of_fmap_2 (λ r, (new_j r, (components r).2))). }
    rewrite Hj in Hin. apply list_elem_of_fmap in Hin as (row & [= _ ->] & Hrow).
    by apply (proj1 (Forall_forall _ _) Hrows) in Hrow as [_ ?]. }
  split; [done|]. split; [done|].
  rewrite (proj1 (Forall_forall _ _) Hall r Hr), !length_app. lia.
Qed.

Lemma prepare_inr r p :
  prepare d D_genes organism chain r = inr p →
  ∃ v0 cdr3 j0,
    r = (PyStr v0, PyStr cdr3, PyStr j0)
    ∧ p_v p = ensure_allele v0 ∧ p_j p = ensure_allele j0 ∧ p_cdr3 p = cdr3
    ∧ germline_lookup d organism chain (lit "V") (ensure_allele v0)
      = inl (p_germline_v p)
    ∧ germline_lookup d organism chain (lit "J") (ensure_allele j0)
      = inl (p_germline_j p)
    ∧ (p_cdr3_source p, p_d_gene p)
      = let labels_vj :=
          label_cdr3_germline_vj_regions cdr3 (p_germline_v p)
            (p_germline_j p) in
        if decide (chain = lit "B")
        then ((best_d_alignment cdr3 labels_vj D_genes 4 3).1.2,
              (best_d_alignment cdr3 labels_vj D_genes 4 3).2)
        else (labels_vj, None).
Proof.
  unfold prepare. destruct r as [[v cdr3] j].
  destruct v as [v| | |]; try done.
  destruct cdr3 as [cdr3| | |]; try done.
  destruct j as [j| | |]; try done.
  destruct (germline_lookup d organism chain (lit "V") (ensure_allele v))
    as [germline_v|k] eqn:Ev; [|done].
  destruct (germline_lookup d organism chain (lit "J") (ensure_allele j))
    as [germline_j|k] eqn:Ej; [|done].
  pose proof (best_d_alignment_cdr3 cdr3
                (label_cdr3_germline_vj_regions cdr3 germline_v germline_j)
                D_genes 4 3) as Hc.
  destruct (decide (chain = lit "B")) as [HB|HB].
  - destruct (best_d_alignment cdr3 _ D_genes 4 3) as [[c s] dg] eqn:E.
    simpl in Hc. subst c.
    destruct (cuts_before s) as [|b bs]; [done|].
    destruct (cuts_after s) as [|a az]; [done|].
    intros [= <-]. exists v, cdr3, j. simpl. rewrite E. by repeat split.
  - destruct (cuts_before _) as [|b bs]; [done|].
    destruct (cuts_after _) as [|a az]; [done|].
    intros [= <-]. exists v, cdr3, j. simpl. by repeat split.
Qed.

(** X18: every diagnostic row comes from a record of the batch whose three
    fields are strings: its gene ids are the record's with the allele
    suffix added, its CDR3 is the record's, its germline strings are what
    the reference holds for these gene ids, its label string is the one
    computed from them (with D matching on chain B), and [cut_cdr3] is the
    three fragments joined by ["--"] with the D fragment in lower case. *)
Theorem diagnostic_row_provenance (g : rng_state) (row : presuffled_row) :
  row ∈ presuffled_receptors (run_loop d D_genes organism chain g tcrs depth) →
  ∃ v0 cdr3 j0,
    (PyStr v0, PyStr cdr3, PyStr j0) ∈ tcrs
    ∧ row_v row = ensure_allele v0 ∧ row_j row = ensure_allele j0
    ∧ row_cdr3 row = cdr3
    ∧ germline_lookup d organism chain (lit "V") (row_v row)
      = inl (row_germline_v row)
    ∧ germline_lookup d organism chain (lit "J") (row_j row)
      = inl (row_germline_j row)
    ∧ row_cdr3_source row
      = (let labels_vj :=
           label_cdr3_germline_vj_regions cdr3 (row_germline_v row)
             (row_germline_j row) in
         if decide (chain = lit "B")
         then (best_d_alignment cdr3 labels_vj D_genes 4 3).1.2
         else labels_vj)
    ∧ row_cut_cdr3 row
      = row_v_part row ++ lit "--" ++ Py.lower (row_d_part row) ++ lit "--"
        ++ row_j_part row.
Proof.
  intros Hrow. unfold run_loop in Hrow.
  apply foldl_row_origin in Hrow as [Hrow|(r & p & c1 & c2 & Hr & Hp & -> & _)].
  { by apply elem_of_nil in Hrow. }
  apply repeat_list_subseteq in Hr.
  apply prepare_inr in Hp as (v0 & cdr3 & j0 & -> & Hv & Hj & Hc & Hgv & Hgj & Hsrc).
  exists v0, cdr3, j0. cbv zeta in Hsrc |- *.
  destruct (decide (chain = lit "B")); injection Hsrc as Hs _;
    simpl; rewrite Hv, Hj, Hs; by repeat split.
Qed.

Lemma foldl_d_origin l st e :
  e ∈ store_d (foldl (process_record d D_genes organism chain) st l) →
  e ∈ store_d st
  ∨ ∃ r p, r ∈ l ∧ prepare d D_genes organism chain r = inr p
           ∧ e.1 = p_d_gene p.
Proof.
  revert st. induction l as [|r l IH]; intros st He; simpl in *; [by left|].
  apply IH in He as [He|(r' & p & Hr' & Hrest)].
  2:{ right. exists r', p. split; [by right|done]. }
  destruct (prepare d D_genes organism chain r) as [err|p] eqn:E.
  - rewrite (process_record_failed _ _ _ _ _ _ _ E) in He. by left.
  - destruct (process_record_prepared _ _ _ _ st _ _ E)
      as (c1 & c2 & g & _ & Heq).
    rewrite Heq in He. simpl in He.
    apply elem_of_app in He as [He|He]; [by left|].
    apply list_elem_of_singleton in He as ->.
    right. exists r, p. split; [left|done].
Qed.

Lemma best_d_alignment_gene_in cdr3 cdr3_source d_segments min_v min_j seq :
  (best_d_alignment cdr3 cdr3_source d_segments min_v min_j).2 = Some seq →
  seq ∈ d_segments.*2.
Proof.
  destruct (best_d_alignment_cases cdr3 cdr3_source d_segments min_v min_j)
    as [[-> _]|(pre & name & d_seq & post & -> & _ & _ & _ & ->)]; [done|].
  simpl. intros [= <-]. rewrite fmap_app. apply elem_of_app. right. left.
Qed.

(** X19: the gene of an entry of the D pool is [None], or, on chain B
    only, the sequence of one of the D-gene candidates. *)
Theorem d_pool_genes (g : rng_state) :
  Forall (λ e, e.1 = None
               ∨ (chain = lit "B" ∧ ∃ seq, e.1 = Some seq ∧ seq ∈ D_genes.*2))
         (store_d (run_loop d D_genes organism chain g tcrs depth)).
Proof.
  apply Forall_forall. intros e He. unfold run_loop in He.
  apply foldl_d_origin in He as [He|(r & p & _ & Hp & ->)].
  { by apply elem_of_nil in He. }
  apply prepare_inr in Hp as (v0 & cdr3 & j0 & _ & _ & _ & _ & _ & _ & Hsrc).
  cbv zeta in Hsrc. destruct (decide (chain = lit "B")) as [HB|HB].
  - injection Hsrc as _ ->.
    destruct (best_d_alignment cdr3 _ D_genes 4 3).2 as [seq|] eqn:E; [|by left].
    right. split; [done|]. exists seq. split; [done|].
    by apply best_d_alignment_gene_in in E.
  - injection Hsrc as _ ->. by left.
Qed.

End engine_extras.

Lemma error_list_scales_with_depth_witness :
  ∃ once,
    (shuffle (H:=lcg) sample_reference sample_D_genes 0%Z sample_tcrs (lit "B")
       (lit "human") 1 (Some 1%Z) false true).1 = ErrorList once
    ∧ (shuffle (H:=lcg) sample_reference sample_D_genes 0%Z sample_tcrs
         (lit "B") (lit "human") 3 (Some 1%Z) false true).1
      = ErrorList (Py.repeat_list once 3).
Proof.
  destruct (error_list_scales_with_depth (H:=lcg) sample_reference
              sample_D_genes sample_tcrs (lit "B") (lit "human") 3 0%Z
              (Some 1%Z) false) as (once & H1 & H3 & _).
  - discriminate.
  - lia.
  - exists once. split; [exact H1|exact H3].
Defined.

Lemma negative_depth_returns_empty_witness :
  (shuffle (H:=lcg) sample_reference sample_D_genes 0%Z sample_tcrs (lit "B")
     (lit "human") (-2) (Some 1%Z) false false).1 = ShuffledBatch [].
Proof.
  destruct (negative_depth_returns_empty (H:=lcg) sample_reference
              sample_D_genes sample_tcrs (lit "B") (lit "human") (-2) 0%Z
              (Some 1%Z)) as (_ & _ & Hdefault).
  - discriminate.
  - lia.
  - exact Hdefault.
Defined.

Lemma diagnostic_row_provenance_witness :
  ∃ row v0 cdr3 j0,
    head (presuffled_receptors
            (run_loop (H:=lcg) sample_reference sample_D_genes (lit "human")
               (lit "B") 1%Z sample_tcrs 1)) = Some row
    ∧ (PyStr v0, PyStr cdr3, PyStr j0) ∈ sample_tcrs
    ∧ row_v row = ensure_allele v0 ∧ row_cdr3 row = cdr3.
Proof.
  destruct (presuffled_receptors
              (run_loop (H:=lcg) sample_reference sample_D_genes (lit "human")
                 (lit "B") 1%Z sample_tcrs 1)) as [|row rows] eqn:E.
  { vm_compute in E. discriminate E. }
  destruct (diagnostic_row_provenance (H:=lcg) sample_reference sample_D_genes
              sample_tcrs (lit "B") (lit "human") 1 1%Z row)
    as (v0 & cdr3 & j0 & Hin & Hv & _ & Hc & _).
  - rewrite E. left.
  - exists row, v0, cdr3, j0.
    split; [reflexivity|]. split; [exact Hin|]. split; [exact Hv|exact Hc].
Defined.

(** ** Gene ids and germline strings *)

(** X20: after the allele normalisation a gene id contains ["*"]; the
    normalisation is idempotent, keeps the id as a prefix, and changes it
    exactly when it had no ["*"]. *)
Theorem ensure_allele_normalises (gene : str) :
  "*"%char ∈ ensure_allele gene
  ∧ ensure_allele (ensure_allele gene) = ensure_allele gene
  ∧ gene `prefix_of` ensure_allele gene
  ∧ (ensure_allele gene = gene ↔ "*"%char ∈ gene).
Proof.
  unfold ensure_allele.
  destruct (decide ("*"%char ∈ gene)) as [Hin|Hnot].
  - rewrite decide_True by done. by repeat split.
  - assert ("*"%char ∈ gene ++ lit "*01") as Hstar.
    { apply elem_of_app. right. left. }
    rewrite decide_True by done.
    split; [done|]. split; [done|]. split; [by eexists|].
    split; [|done]. intros Heq.
    apply (f_equal length) in Heq. rewrite length_app in Heq. simpl in Heq. lia.
Qed.

Lemma split_shape (sep : ascii) (s : str) :
  ∃ init l,
    Py.split sep s = init ++ [l] ∧ (sep ∉ l)
    ∧ ((init = [] ∧ s = l) ∨ (init ≠ [] ∧ ∃ before, s = before ++ sep :: l)).
Proof.
  induction s as [|c s (init & l & Hs & Hno & Hshape)].
  { exists [], []. split; [reflexivity|]. split; [apply not_elem_of_nil|by left]. }
  cbn [Py.split]. rewrite Hs. destruct (decide (c = sep)) as [->|Hc].
  - exists ([] :: init), l. split; [reflexivity|]. split; [exact Hno|].
    right. split; [discriminate|].
    destruct Hshape as [[_ ->]|[_ [before ->]]].
    + by exists [].
    + by exists (sep :: before).
  - destruct init as [|h t].
    + destruct Hshape as [[_ ->]|[Hne _]]; [|done].
      exists [], (c :: l). split; [reflexivity|]. split; [|by left].
      intros [?|?]%elem_of_cons; [congruence|done].
    + exists ((c :: h) :: t), l. split; [reflexivity|]. split; [exact Hno|].
      right. split; [discriminate|].
      destruct Hshape as [[? _]|[_ [before ->]]]; [done|].
      by exists (c :: before).
Qed.

Lemma split_last_item (sep : ascii) (s : str) :
  (sep ∉ Py.last_item (Py.split sep s))
  ∧ (s = Py.last_item (Py.split sep s)
     ∨ ∃ before, s = before ++ sep :: Py.last_item (Py.split sep s)).
Proof.
  destruct (split_shape sep s) as (init & l & -> & Hno & Hshape).
  unfold Py.last_item. rewrite last_last. split; [exact Hno|].
  destruct Hshape as [[_ ->]|[_ Hb]]; [by left|by right].
Qed.

(** X21: the germline lookup succeeds exactly when the four keys are
    present, and then returns the part of the ['cdrs'] cell after its last
    [";"] (the whole cell when it has none), which contains no [";"]; it
    fails with the first of the four keys that is missing. *)
Theorem germline_lookup_spec (d : reference) (organism chain region gene : str) :
  match germline_lookup d organism chain region gene with
  | inl germline =>
      ∃ chains regions genes cdrs,
        d !! organism = Some chains ∧ chains !! chain = Some regions
        ∧ regions !! region = Some genes ∧ genes !! gene = Some cdrs
        ∧ (";"%char ∉ germline)
        ∧ (cdrs = germline ∨ ∃ before, cdrs = before ++ ";"%char :: germline)
  | inr key =>
      (d !! organism = None ∧ key = organism)
      ∨ (∃ chains, d !! organism = Some chains
           ∧ ((chains !! chain = None ∧ key = chain)
              ∨ ∃ regions, chains !! chain = Some regions
                  ∧ ((regions !! region = None ∧ key = region)
                     ∨ ∃ genes, regions !! region = Some genes
                         ∧ genes !! gene = None ∧ key = gene)))
  end.
Proof.
  unfold germline_lookup.
  destruct (d !! organism) as [chains|] eqn:Eo; [|by left].
  destruct (chains !! chain) as [regions|] eqn:Ec.
  2:{ right. exists chains. split; [done|]. by left. }
  destruct (regions !! region) as [genes|] eqn:Er.
  2:{ right. exists chains. split; [done|]. right. exists regions.
      split; [done|]. by left. }
  destruct (genes !! gene) as [cdrs|] eqn:Eg.
  - exists chains, regions, genes, cdrs.
    destruct (split_last_item ";" cdrs) as [Hno Hshape]. by repeat split.
  - right. exists chains. split; [done|]. right. exists regions.
    split; [done|]. right. by exists genes.
Qed.

(** ** [load_reference]: the dictionary it builds *)

Section pydict_facts.
Context {K V : Type} `{EqDecision K}.
Implicit Types d : list (K * V).

Lemma get_set_eq k v d : PyDict.get k (PyDict.set k v d) = Some v.
Proof.
  induction d as [|[k' v'] d IH]; cbn [PyDict.get PyDict.set].
  - by destruct (decide (k = k)).
  - destruct (decide (k' = k)) as [->|Hne]; cbn [PyDict.get].
    + by destruct (decide (k = k)).
    + by destruct (decide (k' = k)).
Qed.

Lemma get_set_ne k k' v d :
  k ≠ k' → PyDict.get k' (PyDict.set k v d) = PyDict.get k' d.
Proof.
  intros Hne. induction d as [|[k0 v0] d IH]; cbn [PyDict.get PyDict.set].
  - by destruct (decide (k = k')).
  - destruct (decide (k0 = k)) as [->|Hne0]; cbn [PyDict.get].
    + by destruct (decide (k = k')).
    + by rewrite IH.
Qed.

Lemma get_set k k' v d :
  PyDict.get k' (PyDict.set k v d)
  = if decide (k = k') then Some v else PyDict.get k' d.
Proof.
  case_decide as Hk; [subst; apply get_set_eq|by apply get_set_ne].
Qed.

Lemma set_keys k v d :
  (PyDict.set k v d).*1 = if decide (k ∈ d.*1) then d.*1 else d.*1 ++ [k].
Proof.
  induction d as [|[k' v'] d IH]; cbn [PyDict.set fmap list_fmap fst app].
  { destruct (decide (k ∈ [])) as [Hin|_]; [|done]. by apply elem_of_nil in Hin. }
  destruct (decide (k' = k)) as [->|Hne]; cbn [fmap list_fmap fst].
  - destruct (decide (k ∈ k :: d.*1)) as [_|Hn]; [done|]. exfalso. apply Hn. left.
  - rewrite IH. destruct (decide (k ∈ d.*1)) as [Hin|Hnin].
    + destruct (decide (k ∈ k' :: d.*1)) as [_|Hn]; [done|].
      exfalso. apply Hn. by right.
    + destruct (decide (k ∈ k' :: d.*1)) as [Hin|_]; [|done].
      apply elem_of_cons in Hin as [?|?]; [congruence|done].
Qed.

Lemma get_None_keys k d : PyDict.get k d = None ↔ k ∉ d.*1.
Proof.
  induction d as [|[k' v'] d IH]; cbn [PyDict.get fmap list_fmap fst].
  - split; [intros _; apply not_elem_of_nil|done].
  - destruct (decide (k' = k)) as [->|Hne].
    + split; [done|]. intros Hn. exfalso. apply Hn. left.
    + rewrite IH. split.
      * intros Hn [?|?]%elem_of_cons; [congruence|done].
      * intros Hn Hin. apply Hn. by right.
Qed.

End pydict_facts.

Lemma list_to_map_get {V W} (f : V → W) (l : list (str * V)) (k : str) :
  (list_to_map (prod_map id f <$> l) : gmap str W) !! k = f <$> PyDict.get k l.
Proof.
  induction l as [|[k' v] l IH]; [apply lookup_empty|].
  cbn [fmap list_fmap prod_map fst snd list_to_map foldr uncurry PyDict.get id].
  destruct (decide (k' = k)) as [->|Hne].
  - apply lookup_insert_eq.
  - rewrite lookup_insert_ne by done. apply IH.
Qed.

Section first_occurrences_facts.
Context {A : Type} `{EqDecision A}.
Implicit Types l : list A.

Lemma first_occurrences_elem l x : x ∈ first_occurrences l ↔ x ∈ l.
Proof.
  induction l as [|y l IH]; [done|]. cbn [first_occurrences].
  rewrite !elem_of_cons, list_elem_of_filter, IH.
  destruct (decide (x = y)); tauto.
Qed.

Lemma first_occurrences_snoc l x :
  first_occurrences (l ++ [x])
  = if decide (x ∈ l) then first_occurrences l else first_occurrences l ++ [x].
Proof.
  induction l as [|y l IH].
  { cbn. destruct (decide (x ∈ [])) as [Hin|_]; [by apply elem_of_nil in Hin|done]. }
  cbn [app first_occurrences]. rewrite IH.
  destruct (decide (x = y)) as [->|Hne].
  - destruct (decide (y ∈ y :: l)) as [_|Hn]; [|exfalso; apply Hn; left].
    destruct (decide (y ∈ l)); [done|].
    rewrite filter_app, filter_cons, filter_nil, decide_False
      by (intros Hn; by apply Hn).
    by rewrite app_nil_r.
  - destruct (decide (x ∈ l)) as [Hin|Hnin].
    + destruct (decide (x ∈ y :: l)) as [_|Hn]; [done|].
      exfalso. apply Hn. by right.
    + destruct (decide (x ∈ y :: l)) as [Hin|_].
      { apply elem_of_cons in Hin as [?|?]; done. }
      by rewrite filter_app, filter_cons, filter_nil, decide_True.
Qed.

Lemma first_occurrences_NoDup l : NoDup (first_occurrences l).
Proof.
  induction l as [|y l IH]; [constructor|]. cbn [first_occurrences].
  constructor.
  - rewrite list_elem_of_filter. intros [Hn _]. by apply Hn.
  - by apply NoDup_filter.
Qed.

Lemma filter_all (P : A → Prop) `{!∀ x, Decision (P x)} l :
  (∀ x, x ∈ l → P x) → filter P l = l.
Proof.
  induction l as [|y l IH]; intros Hall; [done|].
  rewrite filter_cons_True by (apply Hall; left).
  rewrite IH; [done|]. intros x Hx. apply Hall. by right.
Qed.

Lemma first_occurrences_id l : NoDup l → first_occurrences l = l.
Proof.
  induction 1 as [|y l Hy Hl IH]; [done|]. cbn [first_occurrences].
  rewrite IH. f_equal. apply filter_all. intros x Hx ->. done.
Qed.

End first_occurrences_facts.

Section elem_facts.
Context {K V : Type} `{EqDecision K}.

Lemma elem_of_set (k k0 : K) (v v0 : V) (d : list (K * V)) :
  (k, v) ∈ PyDict.set k0 v0 d → (k, v) = (k0, v0) ∨ (k, v) ∈ d.
Proof.
  induction d as [|[k' v'] d IH]; cbn [PyDict.set].
  - intros [?|?%elem_of_nil]%elem_of_cons; [by left|done].
  - destruct (decide (k' = k0)) as [->|Hne].
    + intros [?|?]%elem_of_cons; [by left|]. right. by right.
    + intros [Heq|Hin]%elem_of_cons; [right; rewrite Heq; left|].
      destruct (IH Hin) as [?|?]; [by left|]. right. by right.
Qed.

End elem_facts.

Section fold_set_facts.
Context {X K V : Type} `{EqDecision K} (key : X → K) (val : X → V).

Lemma fold_set_get (xs : list X) (k : K) :
  PyDict.get k (foldl (λ acc x, PyDict.set (key x) (val x) acc) [] xs)
  = val <$> last (filter (λ x, key x = k) xs).
Proof.
  induction xs as [|x xs IH] using rev_ind; [done|].
  rewrite foldl_app, filter_app. cbn [foldl]. rewrite get_set.
  destruct (decide (key x = k)) as [Hk|Hk].
  - rewrite filter_cons, filter_nil, decide_True by done. by rewrite last_snoc.
  - rewrite filter_cons, filter_nil, decide_False by done.
    rewrite app_nil_r. exact IH.
Qed.

Lemma fold_set_keys (xs : list X) :
  (foldl (λ acc x, PyDict.set (key x) (val x) acc) [] xs).*1
  = first_occurrences (key <$> xs).
Proof.
  induction xs as [|x xs IH] using rev_ind; [done|].
  rewrite foldl_app, fmap_app. cbn [foldl fmap list_fmap].
  rewrite set_keys, IH, first_occurrences_snoc.
  destruct (decide (key x ∈ first_occurrences (key <$> xs))) as [Hin|Hnin];
    destruct (decide (key x ∈ key <$> xs)) as [Hin'|Hnin']; try done.
  - exfalso. apply Hnin'. by apply first_occurrences_elem.
  - exfalso. apply Hnin. by apply first_occurrences_elem.
Qed.

Lemma fold_set_elem (xs : list X) (k : K) (v : V) :
  (k, v) ∈ foldl (λ acc x, PyDict.set (key x) (val x) acc) [] xs →
  ∃ x, x ∈ xs ∧ key x = k ∧ val x = v.
Proof.
  induction xs as [|x xs IH] using rev_ind; [by intros ?%elem_of_nil|].
  rewrite foldl_app. cbn [foldl]. intros [Heq|Hin]%elem_of_set.
  - injection Heq as -> ->. exists x. split; [|done].
    apply elem_of_app. right. left.
  - destruct (IH Hin) as (x' & Hx' & Hk & Hv). exists x'. split; [|done].
    apply elem_of_app. by left.
Qed.

End fold_set_facts.

Section table_facts.
Implicit Types (d : gene_table) (r : gene_row) (o c g i : str).

Lemma add_row_organism d r o :
  is_Some (PyDict.get o (add_row d r))
  ↔ gene_organism r = o ∨ is_Some (PyDict.get o d).
Proof.
  unfold add_row. rewrite get_set.
  destruct (decide (gene_organism r = o)) as [Ho|Ho].
  - split; [by left|by eexists].
  - split; [by right|]. by intros [?|?].
Qed.

Lemma add_row_chain d r o c :
  is_Some (PyDict.get o (add_row d r) ≫= PyDict.get c)
  ↔ (gene_organism r = o ∧ gene_chain r = c)
    ∨ is_Some (PyDict.get o d ≫= PyDict.get c).
Proof.
  unfold add_row. rewrite get_set.
  destruct (decide (gene_organism r = o)) as [<-|Ho].
  - cbn [mbind option_bind]. rewrite get_set.
    destruct (decide (gene_chain r = c)) as [<-|Hc].
    + split; [by left|by eexists].
    + destruct (PyDict.get (gene_organism r) d) as [chains|]; cbn.
      * split; [by right|]. by intros [[_ ?]|?].
      * split; [by intros [? ?]|]. intros [[_ ?]|[? ?]]; done.
  - split; [by right|]. by intros [[? _]|?].
Qed.

Lemma add_row_genes d r o c g :
  table_genes (add_row d r) o c g
  = if decide (gene_organism r = o ∧ gene_chain r = c ∧ gene_region r = g)
    then Some (PyDict.set (gene_id r) r (default [] (table_genes d o c g)))
    else table_genes d o c g.
Proof.
  unfold table_genes, add_row. rewrite get_set.
  destruct (decide (gene_organism r = o)) as [<-|Ho].
  2:{ rewrite decide_False; [done|]. by intros [? _]. }
  cbn [mbind option_bind]. rewrite get_set.
  destruct (decide (gene_chain r = c)) as [<-|Hc].
  2:{ rewrite decide_False by (by intros (_ & ? & _)).
      by destruct (PyDict.get (gene_organism r) d). }
  cbn [mbind option_bind]. rewrite get_set.
  destruct (decide (gene_region r = g)) as [<-|Hg].
  - rewrite decide_True by done. f_equal. f_equal.
    destruct (PyDict.get (gene_organism r) d) as [chains|]; cbn; [|done].
    by destruct (PyDict.get (gene_chain r) chains).
  - rewrite decide_False by (by intros (_ & _ & ?)).
    destruct (PyDict.get (gene_organism r) d) as [chains|]; cbn; [|done].
    by destruct (PyDict.get (gene_chain r) chains).
Qed.

Lemma build_snoc rows r :
  build_gene_table (rows ++ [r]) = add_row (build_gene_table rows) r.
Proof. unfold build_gene_table. by rewrite foldl_app. Qed.

Lemma build_organism rows o :
  is_Some (PyDict.get o (build_gene_table rows))
  ↔ Exists (λ r, gene_organism r = o) rows.
Proof.
  induction rows as [|r rows IH] using rev_ind.
  { split; [by intros [? ?]|by intros ?%Exists_nil]. }
  rewrite build_snoc, add_row_organism, Exists_app, Exists_cons, Exists_nil, IH.
  tauto.
Qed.

Lemma build_chain rows o c :
  is_Some (PyDict.get o (build_gene_table rows) ≫= PyDict.get c)
  ↔ Exists (λ r, gene_organism r = o ∧ gene_chain r = c) rows.
Proof.
  induction rows as [|r rows IH] using rev_ind.
  { split; [by intros [? ?]|by intros ?%Exists_nil]. }
  rewrite build_snoc, add_row_chain, Exists_app, Exists_cons, Exists_nil, IH.
  tauto.
Qed.

Lemma build_genes rows o c g :
  table_genes (build_gene_table rows) o c g
  = if decide (rows_under rows o c g = []) then None
    else Some (foldl (λ acc r, PyDict.set (gene_id r) r acc) []
                 (rows_under rows o c g)).
Proof.
  induction rows as [|r rows IH] using rev_ind; [done|].
  rewrite build_snoc, add_row_genes, IH. unfold rows_under.
  rewrite filter_app, filter_cons, filter_nil.
  destruct (decide (gene_organism r = o ∧ gene_chain r = c ∧ gene_region r = g))
    as [Hm|Hm].
  - destruct (decide (filter _ rows ++ [r] = [])) as [[_ ?]%app_eq_nil|_];
      [done|].
    rewrite foldl_app. cbn [foldl]. f_equal. f_equal.
    by destruct (decide (filter _ rows = [])) as [->|_].
  - by rewrite app_nil_r.
Qed.

Lemma build_lookup rows o c g i :
  table_lookup (build_gene_table rows) o c g i
  = last (filter (λ r, gene_organism r = o ∧ gene_chain r = c
                       ∧ gene_region r = g ∧ gene_id r = i) rows).
Proof.
  unfold table_lookup. rewrite build_genes.
  transitivity (last (filter (λ r, gene_id r = i) (rows_under rows o c g))).
  - destruct (decide (rows_under rows o c g = [])) as [->|_]; [done|].
    cbn [mbind option_bind].
    rewrite (fold_set_get gene_id id). by destruct (last _).
  - unfold rows_under. rewrite list_filter_filter. f_equal.
    apply list_filter_iff. tauto.
Qed.

End table_facts.

Lemma keyed_values_get (genes : list (str * gene_row)) (k : str) :
  (∀ k' r, (k', r) ∈ genes → gene_id r = k') →
  NoDup genes.*1 →
  last (filter (λ r, gene_id r = k) genes.*2) = PyDict.get k genes.
Proof.
  induction genes as [|[k0 r0] genes IH]; intros Hid Hnd; [done|].
  cbn [fmap list_fmap snd fst PyDict.get] in *.
  apply NoDup_cons in Hnd as [Hk0 Hnd].
  assert (gene_id r0 = k0) as Hr0 by (apply Hid; left).
  assert (last (filter (λ r, gene_id r = k) genes.*2) = PyDict.get k genes)
    as Hrest by (apply IH; [intros k' r Hin; apply Hid; by right|done]).
  rewrite filter_cons. destruct (decide (k0 = k)) as [->|Hne].
  - rewrite decide_True by done.
    apply get_None_keys in Hk0. rewrite Hk0 in Hrest.
    apply last_None in Hrest. by rewrite Hrest.
  - rewrite decide_False by congruence. exact Hrest.
Qed.

Lemma keyed_values_ids (genes : list (str * gene_row)) :
  (∀ k' r, (k', r) ∈ genes → gene_id r = k') →
  gene_id <$> genes.*2 = genes.*1.
Proof.
  induction genes as [|[k0 r0] genes IH]; intros Hid; [done|].
  cbn [fmap list_fmap snd fst] in *. f_equal.
  - apply Hid. left.
  - apply IH. intros k' r Hin. apply Hid. by right.
Qed.

(** The D-gene dictionary made from the genes filed by a list of rows. *)
Lemma d_genes_of_fold (rs : list gene_row) :
  let genes := foldl (λ acc r, PyDict.set (gene_id r) r acc) [] rs in
  (d_genes_of genes).*1 = first_occurrences (gene_id <$> rs)
  ∧ ∀ k, PyDict.get k (d_genes_of genes)
         = gene_aligned_protseq <$> last (filter (λ r, gene_id r = k) rs).
Proof.
  intros genes.
  assert (∀ k' r, (k', r) ∈ genes → gene_id r = k') as Hid.
  { intros k' r Hin. apply (fold_set_elem gene_id id) in Hin
      as (x & _ & Hk & Hv). by subst. }
  assert (genes.*1 = first_occurrences (gene_id <$> rs)) as Hkeys
    by apply (fold_set_keys gene_id id).
  assert (NoDup genes.*1) as Hnd
    by (rewrite Hkeys; apply first_occurrences_NoDup).
  unfold d_genes_of, PyDict.values. split.
  - rewrite (fold_set_keys gene_id gene_aligned_protseq).
    rewrite (keyed_values_ids genes Hid).
    rewrite (first_occurrences_id _ Hnd). exact Hkeys.
  - intros k. rewrite (fold_set_get gene_id gene_aligned_protseq).
    rewrite (keyed_values_get genes k Hid Hnd).
    unfold genes. rewrite (fold_set_get gene_id id). by destruct (last _).
Qed.

Lemma reference_of_lookup (d : gene_table) (o c g i : str) :
  germline_lookup (reference_of d) o c g i
  = match PyDict.get o d with
    | None => inr o
    | Some chains =>
        match PyDict.get c chains with
        | None => inr c
        | Some regions =>
            match PyDict.get g regions with
            | None => inr g
            | Some genes =>
                match PyDict.get i genes with
                | None => inr i
                | Some r => inl (Py.last_item (Py.split ";" (gene_cdrs r)))
                end
            end
        end
    end.
Proof.
  unfold germline_lookup, reference_of. rewrite list_to_map_get.
  destruct (PyDict.get o d) as [chains|]; cbn [fmap option_fmap option_map]; [|done].
  rewrite list_to_map_get.
  destruct (PyDict.get c chains) as [regions|]; cbn [fmap option_fmap option_map]; [|done].
  rewrite list_to_map_get.
  destruct (PyDict.get g regions) as [genes|]; cbn [fmap option_fmap option_map]; [|done].
  rewrite list_to_map_get.
  by destruct (PyDict.get i genes).
Qed.

(** X22: in the dictionary that [load_reference] returns, the entry under
    an organism, chain, region and gene id is the last row of the table
    with these four values, and there is an entry exactly when there is
    such a row. *)
Theorem load_reference_table (all_genes : list gene_row)
    (organism chain : str) d D_genes (o c g i : str) :
  load_reference all_genes organism chain = inr (d, D_genes) →
  table_lookup d o c g i
  = last (filter (λ r, gene_organism r = o ∧ gene_chain r = c
                       ∧ gene_region r = g ∧ gene_id r = i) all_genes).
Proof.
  intros Hload.
  assert (d = build_gene_table all_genes) as ->; [|apply build_lookup].
  unfold load_reference in Hload.
  destruct (decide (chain = lit "B")); [|congruence].
  destruct (PyDict.get organism _) as [chains|]; [|discriminate].
  destruct (PyDict.get chain chains) as [regions|]; [|discriminate].
  destruct (PyDict.get (lit "D") regions); [congruence|discriminate].
Qed.

Lemma load_reference_table_witness :
  ∃ d D_genes,
    load_reference sample_rows (lit "human") (lit "B") = inr (d, D_genes)
    ∧ table_lookup d (lit "human") (lit "B") (lit "D") (lit "TRBD1*01")
      = last (filter (λ r, gene_organism r = lit "human"
                           ∧ gene_chain r = lit "B"
                           ∧ gene_region r = lit "D"
                           ∧ gene_id r = lit "TRBD1*01") sample_rows).
Proof.
  destruct (load_reference sample_rows (lit "human") (lit "B"))
    as [key|[d D_genes]] eqn:E; [vm_compute in E; discriminate E|].
  exists d, D_genes. split; [reflexivity|].
  exact (load_reference_table sample_rows (lit "human") (lit "B") d D_genes
           (lit "human") (lit "B") (lit "D") (lit "TRBD1*01") E).
Defined.

(** X23: [load_reference] raises a [KeyError] exactly when the chain is
    ["B"] and the table has no D row for the organism and chain; the key
    reported is the organism when the table has no row of the organism,
    else the chain when it has none of that chain, else ["D"]. *)
Theorem load_reference_key_error (all_genes : list gene_row)
    (organism chain key : str) :
  load_reference all_genes organism chain = inl key
  ↔ chain = lit "B"
    ∧ rows_under all_genes organism chain (lit "D") = []
    ∧ key = if decide (Exists (λ r, gene_organism r = organism) all_genes)
            then if decide (Exists (λ r, gene_organism r = organism
                                         ∧ gene_chain r = chain) all_genes)
                 then lit "D" else chain
            else organism.
Proof.
  unfold load_reference.
  pose proof (build_organism all_genes organism) as Ho.
  pose proof (build_chain all_genes organism chain) as Hc.
  pose proof (build_genes all_genes organism chain (lit "D")) as Hg.
  unfold table_genes in Hg.
  destruct (decide (chain = lit "B")) as [HB|HB].
  2:{ split; [discriminate|]. by intros [? _]. }
  destruct (PyDict.get organism (build_gene_table all_genes)) as [chains|].
  2:{ cbn [mbind option_bind] in *.
      rewrite decide_False by (intros HE; apply Ho in HE; by destruct HE).
      destruct (decide (rows_under _ _ _ _ = [])); [|discriminate].
      split; [intros [= <-]; done|]. by intros (_ & _ & ->). }
  cbn [mbind option_bind] in *.
  rewrite decide_True by (apply Ho; by eexists).
  destruct (PyDict.get chain chains) as [regions|].
  2:{ cbn [mbind option_bind] in *.
      rewrite decide_False by (intros HE; apply Hc in HE; by destruct HE).
      destruct (decide (rows_under _ _ _ _ = [])); [|discriminate].
      split; [intros [= <-]; done|]. by intros (_ & _ & ->). }
  cbn [mbind option_bind] in *.
  rewrite decide_True by (apply Hc; by eexists).
  destruct (PyDict.get (lit "D") regions) as [genes|].
  - destruct (decide (rows_under _ _ _ _ = [])) as [|Hne]; [discriminate|].
    split; [discriminate|]. by intros (_ & ? & _).
  - destruct (decide (rows_under _ _ _ _ = [])); [|discriminate].
    split; [intros [= <-]; done|]. by intros (_ & _ & ->).
Qed.

(** X24: when [load_reference] returns a D-gene dictionary, the chain is
    ["B"], the table has D rows for the organism, the keys of the
    dictionary are the ids of these rows in the order of their first
    occurrence (the order in which [best_d_alignment] tries the
    candidates), and each id is mapped to the [aligned_protseq] of the last
    row with that id. *)
Theorem load_reference_D_genes (all_genes : list gene_row)
    (organism chain : str) d (D_genes : list (str * str)) :
  load_reference all_genes organism chain = inr (d, Some D_genes) →
  let d_rows := rows_under all_genes organism (lit "B") (lit "D") in
  chain = lit "B"
  ∧ d_rows ≠ []
  ∧ D_genes.*1 = first_occurrences (gene_id <$> d_rows)
  ∧ ∀ k, PyDict.get k D_genes
         = gene_aligned_protseq <$> last (filter (λ r, gene_id r = k) d_rows).
Proof.
  intros Hload. cbv zeta. unfold load_reference in Hload.
  destruct (decide (chain = lit "B")) as [->|]; [|congruence].
  pose proof (build_genes all_genes organism (lit "B") (lit "D")) as Hg.
  unfold table_genes in Hg.
  destruct (PyDict.get organism _) as [chains|]; [|discriminate].
  cbn [mbind option_bind] in Hg.
  destruct (PyDict.get (lit "B") chains) as [regions|]; [|discriminate].
  cbn [mbind option_bind] in Hg.
  destruct (PyDict.get (lit "D") regions) as [genes|]; [|discriminate].
  destruct (decide (rows_under _ _ _ _ = [])) as [|Hne]; [discriminate|].
  injection Hg as ->. injection Hload as _ <-.
  split; [done|]. split; [done|]. apply d_genes_of_fold.
Qed.

Lemma load_reference_D_genes_witness :
  ∃ d D_genes,
    load_reference sample_rows (lit "human") (lit "B") = inr (d, Some D_genes)
    ∧ D_genes.*1 = [lit "TRBD1*01"; lit "TRBD2*01"]
    ∧ PyDict.get (lit "TRBD1*01") D_genes = Some (lit "GQGG").
Proof.
  destruct (load_reference sample_rows (lit "human") (lit "B"))
    as [key|[d [D_genes|]]] eqn:E;
    [vm_compute in E; discriminate E| |vm_compute in E; discriminate E].
  exists d, D_genes. split; [reflexivity|].
  destruct (load_reference_D_genes sample_rows (lit "human") (lit "B") d
              D_genes E) as (_ & _ & Hkeys & Hget).
  split; [exact Hkeys|exact (Hget (lit "TRBD1*01"))].
Defined.

(** X25: the germline string that [shuffle] reads for a gene from the
    dictionary built by [load_reference] is the part after the last [";"]
    of the ['cdrs'] cell of the last row of the table filed under the
    organism, chain, region and gene id; the lookup fails when there is
    no such row. *)
Theorem germline_of_built_table (all_genes : list gene_row)
    (organism chain region gene germline : str) :
  germline_lookup (reference_of (build_gene_table all_genes))
    organism chain region gene = inl germline
  ↔ ∃ r,
      last (filter (λ r, gene_organism r = organism ∧ gene_chain r = chain
                         ∧ gene_region r = region ∧ gene_id r = gene)
              all_genes) = Some r
      ∧ germline = Py.last_item (Py.split ";" (gene_cdrs r)).
Proof.
  rewrite <- build_lookup, reference_of_lookup.
  unfold table_lookup, table_genes.
  destruct (PyDict.get organism _) as [chains|]; cbn [mbind option_bind].
  2:{ split; [discriminate|]. by intros (? & ? & _). }
  destruct (PyDict.get chain chains) as [regions|]; cbn [mbind option_bind].
  2:{ split; [discriminate|]. by intros (? & ? & _). }
  destruct (PyDict.get region regions) as [genes|]; cbn [mbind option_bind].
  2:{ split; [discriminate|]. by intros (? & ? & _). }
  destruct (PyDict.get gene genes) as [r|].
  - split; [intros [= <-]; by exists r|]. by intros (? & [= <-] & ->).
  - split; [discriminate|]. by intros (? & ? & _).
Qed.
